(** * statecouchdb: the CouchDB-backed versioned state database

    A shallow embedding of package [statecouchdb] (composite-key codec,
    point reads, range scans, batched writes fenced by the savepoint
    protocol, and the two result scanners), with the properties of its
    specification stated and proved against the embedding.

    Conventions.
    - A Go [string] is a [string] (a sequence of 8-bit characters); a Go
      [[]byte] is a [list byte]; the conversions [[]byte(s)] and
      [string(b)] are [list_byte_of_string] and [string_of_list_byte].
      A byte slice whose nil-ness the code observes or passes on is an
      [option (list byte)], [None] standing for nil.
    - A Go [error] value is an [option error], [None] standing for nil.
    - A run-time panic is the [Panicked] outcome.
    - Calls to the CouchDB client are the nodes of a program tree
      ([Prog]); a store implementation interprets them. *)

From Stdlib Require Import ZArith NArith Lia List.
From Stdlib Require Import Strings.Byte Strings.String Strings.Ascii.
From Stdlib Require Import DecimalString DecimalN.
From stdpp Require Import base option list gmap strings sorting.

(** ** Bytes and their ordering *)

Abbreviation bytes := (list byte).

#[global] Instance byte_eq_dec : EqDecision byte := Byte.byte_eq_dec.

(** Unsigned comparison of two bytes. *)
Definition byte_compare (a b : byte) : comparison :=
  N.compare (Byte.to_N a) (Byte.to_N b).

(** [bytes.Compare]: lexicographic comparison of two byte slices; a proper
    prefix orders before the longer slice. *)
Fixpoint bytes_Compare (a b : bytes) : comparison :=
  match a, b with
  | [], [] => Eq
  | [], _ :: _ => Lt
  | _ :: _, [] => Gt
  | x :: a', y :: b' =>
      match byte_compare x y with
      | Eq => bytes_Compare a' b'
      | c => c
      end
  end.

Definition bytes_lt (a b : bytes) : Prop := bytes_Compare a b = Lt.
Definition bytes_le (a b : bytes) : Prop := bytes_Compare a b <> Gt.

(** Go compares strings byte-wise. *)
Definition string_Compare (s t : string) : comparison :=
  bytes_Compare (list_byte_of_string s) (list_byte_of_string t).

Definition string_lt (s t : string) : Prop := string_Compare s t = Lt.
Definition string_le (s t : string) : Prop := string_Compare s t <> Gt.

#[global] Instance bytes_lt_dec a b : Decision (bytes_lt a b).
Proof. unfold bytes_lt. solve_decision. Defined.
#[global] Instance bytes_le_dec a b : Decision (bytes_le a b).
Proof. unfold bytes_le. solve_decision. Defined.
#[global] Instance string_lt_dec s t : Decision (string_lt s t).
Proof. unfold string_lt. solve_decision. Defined.
#[global] Instance string_le_dec s t : Decision (string_le s t).
Proof. unfold string_le. solve_decision. Defined.

(** ** Outcomes of code that can panic *)

Inductive outcome (A : Type) : Type :=
| Returned (a : A)
| Panicked (msg : string).
Arguments Returned {A} a.
Arguments Panicked {A} msg.

(** ** Package-level variables *)

Definition compositeKeySep : bytes := [x00].
Definition lastKeyIndicator : byte := x01.
Definition savePointKey : bytes := [x00].

(** Savepoint docid (key) for couchdb *)
Definition savepointDocID : string := "statedb_savepoint"%string.

(** ** [bytes.Index] and [bytes.SplitN] *)

Fixpoint bytes_HasPrefix (s prefix : bytes) {struct prefix} : bool :=
  match prefix, s with
  | [], _ => true
  | _ :: _, [] => false
  | p :: prefix', c :: s' => bool_decide (c = p) && bytes_HasPrefix s' prefix'
  end.

(** [bytes.Index]: the index of the first instance of [sep] in [s], or -1. *)
Fixpoint bytes_Index (s sep : bytes) : Z :=
  if bytes_HasPrefix s sep then 0%Z
  else match s with
       | [] => (-1)%Z
       | _ :: s' =>
           let m := bytes_Index s' sep in
           if (m <? 0)%Z then (-1)%Z else (m + 1)%Z
       end.

(** The loop of [genSplit]: cut at most [cuts] times at the first instance
    of [sep], the remainder being the last piece. *)
Fixpoint genSplit_loop (cuts : nat) (s sep : bytes) : list bytes :=
  match cuts with
  | O => [s]
  | S cuts' =>
      let m := bytes_Index s sep in
      if (m <? 0)%Z then [s]
      else take (Z.to_nat m) s
             :: genSplit_loop cuts' (drop (Z.to_nat m + length sep) s) sep
  end.

(** [bytes.SplitN(s, sep, n)] for a non-empty separator: [n = 0] gives no
    piece, [n > 0] at most [n] pieces (the last one the unsplit remainder),
    [n < 0] all pieces.  The empty separator (which explodes [s] into UTF-8
    sequences) is never passed by this package, whose only separator is
    [compositeKeySep]; that branch is not modelled and yields no piece. *)
Definition bytes_SplitN (s sep : bytes) (n : Z) : list bytes :=
  if (n =? 0)%Z then []
  else match sep with
       | [] => []
       | _ :: _ =>
           if (n <? 0)%Z then genSplit_loop (length s) s sep
           else genSplit_loop (Z.to_nat n - 1) s sep
       end.

(** ** The composite-key codec *)

Definition constructCompositeKey (ns key : string) : bytes :=
  let compositeKey := list_byte_of_string ns in
  let compositeKey := compositeKey ++ compositeKeySep in
  let compositeKey := compositeKey ++ list_byte_of_string key in
  compositeKey.

(** [split[1]] panics when the separator does not occur. *)
Definition splitCompositeKey (compositeKey : bytes) : outcome (string * string) :=
  let split := bytes_SplitN compositeKey compositeKeySep 2 in
  match split !! 0%nat, split !! 1%nat with
  | Some s0, Some s1 => Returned (string_of_list_byte s0, string_of_list_byte s1)
  | _, _ => Panicked "index out of range"
  end.

(** A string contains the separator byte. *)
Definition hasSep (s : string) : Prop := x00 ∈ list_byte_of_string s.

#[global] Instance hasSep_dec s : Decision (hasSep s).
Proof. unfold hasSep. apply _. Defined.

(** Namespace-then-key ordering of (namespace, key) pairs. *)
Definition pair_lt (p q : string * string) : Prop :=
  string_lt p.1 q.1 \/ (p.1 = q.1 /\ string_lt p.2 q.2).

(** ** Go values shared by the packages *)

(** An [error] value carries its message. *)
Definition error := string.
Definition errors_New (text : string) : error := text.

(** [string(b)] for a slice that may be nil. *)
Definition string_of_slice (b : option bytes) : string :=
  string_of_list_byte (default [] b).

(** The width of Go's [int] on the 64-bit platforms the package is built
    for, and its two's-complement wrap-around. *)
Definition intSize : Z := 64.
Definition int_wrap (z : Z) : Z :=
  ((z + 2 ^ (intSize - 1)) mod 2 ^ intSize - 2 ^ (intSize - 1))%Z.
Definition maxInt : Z := (2 ^ (intSize - 1) - 1)%Z.

(** [s[i]] on a slice: out of range panics. *)
Definition slice_index {A} (s : list A) (i : Z) : outcome A :=
  if (i <? 0)%Z then Panicked "index out of range"
  else match s !! Z.to_nat i with
       | Some x => Returned x
       | None => Panicked "index out of range"
       end.

(** ** Package [version] *)

Module version.
Record Height := { BlockNum : N; TxNum : N }.

Definition NewHeight (blockNum txNum : N) : Height :=
  {| BlockNum := blockNum; TxNum := txNum |}.
End version.

(** ** Package [statedb] *)

Module statedb.
Record CompositeKey := { Namespace : string; Key : string }.

Record VersionedValue := { Value : option bytes; Version : version.Height }.

Record VersionedKV := { CK : CompositeKey; VV : VersionedValue }.

Record VersionedQueryRecord := {
  QNamespace : string;
  QKey : string;
  QVersion : version.Height;
  Record_ : option bytes
}.

#[global] Instance CompositeKey_eq_dec : EqDecision CompositeKey.
Proof. solve_decision. Defined.

#[global] Instance CompositeKey_countable : Countable CompositeKey :=
  inj_countable' (fun ck => (Namespace ck, Key ck))
                 (fun p => {| Namespace := p.1; Key := p.2 |})
                 (fun ck => match ck with Build_CompositeKey _ _ => eq_refl end).

(** [UpdateBatch.KVs] is a Go map. *)
Record UpdateBatch := { KVs : gmap CompositeKey VersionedValue }.
End statedb.

(** ** Package [couchdb]: the client's types and calls *)

Module couchdb.
Record Attachment := {
  AttachmentBytes : option bytes;
  ContentType : string;
  Name : string
}.

(** The fields of the client's response and info structures that this
    package reads. *)
Record DBOperationResponse := { Ok : bool }.
Record DBInfo := { UpdateSeq : string }.

Record QueryResult := { ID : string; Value : option bytes }.

(** Results of the client calls, as Go returns them. *)
Abbreviation ReadDocResult := (option bytes * string * option error)%type.
Abbreviation SaveDocResult := (string * option error)%type.
Abbreviation CommitResult := (DBOperationResponse * option error)%type.
Abbreviation InfoResult := (DBInfo * option error)%type.
Abbreviation QueryResults := (list QueryResult * option error)%type.

(** A program over the database handle: it returns, or issues one client
    call and continues with the call's result. *)
Inductive Prog (A : Type) : Type :=
| Ret (a : A)
| DoReadDoc (id : string) (k : ReadDocResult -> Prog A)
| DoSaveDoc (id rev : string) (bytesDoc : option bytes)
    (attachments : list Attachment) (k : SaveDocResult -> Prog A)
| DoEnsureFullCommit (k : CommitResult -> Prog A)
| DoGetDatabaseInfo (k : InfoResult -> Prog A)
| DoReadDocRange (startKey endKey : string) (limit skip : Z)
    (k : QueryResults -> Prog A)
| DoQueryDocuments (query : string) (limit skip : Z)
    (k : QueryResults -> Prog A).
Arguments Ret {A} a.
Arguments DoReadDoc {A} id k.
Arguments DoSaveDoc {A} id rev bytesDoc attachments k.
Arguments DoEnsureFullCommit {A} k.
Arguments DoGetDatabaseInfo {A} k.
Arguments DoReadDocRange {A} startKey endKey limit skip k.
Arguments DoQueryDocuments {A} query limit skip k.

Fixpoint bind {A B} (p : Prog A) (f : A -> Prog B) : Prog B :=
  match p with
  | Ret a => f a
  | DoReadDoc id k => DoReadDoc id (fun r => bind (k r) f)
  | DoSaveDoc id rev b atts k => DoSaveDoc id rev b atts (fun r => bind (k r) f)
  | DoEnsureFullCommit k => DoEnsureFullCommit (fun r => bind (k r) f)
  | DoGetDatabaseInfo k => DoGetDatabaseInfo (fun r => bind (k r) f)
  | DoReadDocRange s e l sk k => DoReadDocRange s e l sk (fun r => bind (k r) f)
  | DoQueryDocuments q l sk k => DoQueryDocuments q l sk (fun r => bind (k r) f)
  end.

#[global] Instance Prog_ret : MRet Prog := @Ret.
#[global] Instance Prog_bind : MBind Prog := fun A B f p => bind p f.

(** The methods of [*couchdb.CouchDatabase] this package calls. *)
Definition ReadDoc (id : string) : Prog ReadDocResult := DoReadDoc id Ret.
Definition SaveDoc (id rev : string) (bytesDoc : option bytes)
    (attachments : list Attachment) : Prog SaveDocResult :=
  DoSaveDoc id rev bytesDoc attachments Ret.
Definition EnsureFullCommit : Prog CommitResult := DoEnsureFullCommit Ret.
(** [GetDatabaseInfo] also returns a [*DBReturn], which this package
    discards. *)
Definition GetDatabaseInfo : Prog InfoResult := DoGetDatabaseInfo Ret.
Definition ReadDocRange (startKey endKey : string) (limit skip : Z)
    : Prog QueryResults :=
  DoReadDocRange startKey endKey limit skip Ret.
Definition QueryDocuments (query : string) (limit skip : Z)
    : Prog QueryResults :=
  DoQueryDocuments query limit skip Ret.

(** One client call together with the result it gave. *)
Inductive event : Type :=
| EvReadDoc (id : string) (r : ReadDocResult)
| EvSaveDoc (id rev : string) (bytesDoc : option bytes)
    (attachments : list Attachment) (r : SaveDocResult)
| EvEnsureFullCommit (r : CommitResult)
| EvGetDatabaseInfo (r : InfoResult)
| EvReadDocRange (startKey endKey : string) (limit skip : Z) (r : QueryResults)
| EvQueryDocuments (query : string) (limit skip : Z) (r : QueryResults).

(** A database behind the client: each call maps a database state to a
    result and the next state. *)
Class CouchDatabase (DB : Type) := {
  handle_ReadDoc : string -> DB -> ReadDocResult * DB;
  handle_SaveDoc :
    string -> string -> option bytes -> list Attachment -> DB -> SaveDocResult * DB;
  handle_EnsureFullCommit : DB -> CommitResult * DB;
  handle_GetDatabaseInfo : DB -> InfoResult * DB;
  handle_ReadDocRange : string -> string -> Z -> Z -> DB -> QueryResults * DB;
  handle_QueryDocuments : string -> Z -> Z -> DB -> QueryResults * DB
}.

(** The outcome of running a program: its result, the final database
    state and the calls made, in order. *)
Record Run (A DB : Type) := { result : A; final : DB; calls : list event }.
Arguments result {A DB} r.
Arguments final {A DB} r.
Arguments calls {A DB} r.

Definition after {A DB} (e : event) (r : Run A DB) : Run A DB :=
  {| result := result r; final := final r; calls := e :: calls r |}.

Fixpoint exec {DB} `{CouchDatabase DB} {A} (p : Prog A) (db : DB) : Run A DB :=
  match p with
  | Ret a => {| result := a; final := db; calls := [] |}
  | DoReadDoc id k =>
      let '(r, db') := handle_ReadDoc id db in
      after (EvReadDoc id r) (exec (k r) db')
  | DoSaveDoc id rev b atts k =>
      let '(r, db') := handle_SaveDoc id rev b atts db in
      after (EvSaveDoc id rev b atts r) (exec (k r) db')
  | DoEnsureFullCommit k =>
      let '(r, db') := handle_EnsureFullCommit db in
      after (EvEnsureFullCommit r) (exec (k r) db')
  | DoGetDatabaseInfo k =>
      let '(r, db') := handle_GetDatabaseInfo db in
      after (EvGetDatabaseInfo r) (exec (k r) db')
  | DoReadDocRange s e l sk k =>
      let '(r, db') := handle_ReadDocRange s e l sk db in
      after (EvReadDocRange s e l sk r) (exec (k r) db')
  | DoQueryDocuments q l sk k =>
      let '(r, db') := handle_QueryDocuments q l sk db in
      after (EvQueryDocuments q l sk r) (exec (k r) db')
  end.
End couchdb.

(** ** Package [statecouchdb] *)

(** Savepoint data for couchdb *)
Record couchSavepointData := {
  BlockNum : N;
  TxNum : N;
  UpdateSeq : string
}.

(** What the package takes from outside these sources and from the Go
    run time: the JSON test of the client package ([couchdb.IsJSON]),
    [encoding/json] at type [couchSavepointData] ([json.Marshal] returns
    the text and an error, [json.Unmarshal] the structure decoded into a
    zero value and an error), and the order in which a [range] statement
    visits the entries of a map. *)
Class Externals := {
  IsJSON : string -> bool;
  json_Marshal : couchSavepointData -> option bytes * option error;
  json_Unmarshal : bytes -> couchSavepointData * option error;
  rangeKVs :
    gmap statedb.CompositeKey statedb.VersionedValue ->
    list (statedb.CompositeKey * statedb.VersionedValue)
}.

(** What is assumed of them: a marshalled savepoint is a non-nil text that
    decodes without error to the same block and transaction numbers, and a
    [range] visits every entry of the map exactly once. *)
Class ExternalsLaws `{Externals} := {
  json_Marshal_Unmarshal : forall d b,
    json_Marshal d = (b, None) ->
    exists text d',
      b = Some text /\ json_Unmarshal text = (d', None) /\
      BlockNum d' = BlockNum d /\ TxNum d' = TxNum d;
  rangeKVs_Permutation : forall m, rangeKVs m ≡ₚ map_to_list m
}.

Module kvScanner.
Record t := {
  cursor : Z;
  namespace : string;
  results : list couchdb.QueryResult
}.
End kvScanner.

Module queryScanner.
Record t := {
  cursor : Z;
  results : list couchdb.QueryResult
}.
End queryScanner.

Definition newKVScanner (namespace : string)
    (queryResults : list couchdb.QueryResult) : kvScanner.t :=
  {| kvScanner.cursor := -1;
     kvScanner.namespace := namespace;
     kvScanner.results := queryResults |}.

Definition newQueryScanner (queryResults : list couchdb.QueryResult)
    : queryScanner.t :=
  {| queryScanner.cursor := -1; queryScanner.results := queryResults |}.

Section VersionedDB.
Context `{Externals}.

(** GetState implements method in VersionedDB interface *)
Definition GetState (namespace key : string)
    : couchdb.Prog (option statedb.VersionedValue * option error) :=
  let compositeKey := constructCompositeKey namespace key in
  '(docBytes, _, err) ← couchdb.ReadDoc (string_of_list_byte compositeKey);
  match err with
  | Some _ => couchdb.Ret (None, err)
  | None =>
      match docBytes with
      | None => couchdb.Ret (None, None)
      | Some _ =>
          let ver := version.NewHeight 1 1 in
          couchdb.Ret (Some {| statedb.Value := docBytes; statedb.Version := ver |}, None)
      end
  end.

(** The loop of [GetStateMultipleKeys]: [i] is the index of the next
    key, [vals] the slice being filled. *)
Fixpoint GetStateMultipleKeys_loop (namespace : string) (i : nat)
    (keys : list string) (vals : list (option statedb.VersionedValue))
    : couchdb.Prog (option (list (option statedb.VersionedValue)) * option error) :=
  match keys with
  | [] => couchdb.Ret (Some vals, None)
  | key :: keys' =>
      '(val, err) ← GetState namespace key;
      match err with
      | Some _ => couchdb.Ret (None, err)
      | None => GetStateMultipleKeys_loop namespace (S i) keys' (<[i := val]> vals)
      end
  end.

(** GetStateMultipleKeys implements method in VersionedDB interface *)
Definition GetStateMultipleKeys (namespace : string) (keys : list string)
    : couchdb.Prog (option (list (option statedb.VersionedValue)) * option error) :=
  let vals := replicate (length keys) None in
  GetStateMultipleKeys_loop namespace 0 keys vals.

(** GetStateRangeScanIterator implements method in VersionedDB interface:
    startKey is inclusive, endKey is exclusive *)
Definition GetStateRangeScanIterator (namespace startKey endKey : string)
    : couchdb.Prog (option kvScanner.t * option error) :=
  let compositeStartKey := constructCompositeKey namespace startKey in
  let compositeEndKey := constructCompositeKey namespace endKey in
  let compositeEndKey :=
    if bool_decide (endKey = EmptyString)
    then <[(length compositeEndKey - 1)%nat := lastKeyIndicator]> compositeEndKey
    else compositeEndKey in
  '(queryResult, err) ← couchdb.ReadDocRange (string_of_list_byte compositeStartKey)
                           (string_of_list_byte compositeEndKey) 1000 0;
  match err with
  | Some _ => couchdb.Ret (None, err)
  | None => couchdb.Ret (Some (newKVScanner namespace queryResult), None)
  end.

(** ExecuteQuery implements method in VersionedDB interface *)
Definition ExecuteQuery (query : string)
    : couchdb.Prog (option queryScanner.t * option error) :=
  '(queryResult, err) ← couchdb.QueryDocuments query 1000 0;
  match err with
  | Some _ => couchdb.Ret (None, err)
  | None => couchdb.Ret (Some (newQueryScanner queryResult), None)
  end.

(** The loop of [ApplyUpdates] over the entries in the order the [range]
    visits them; [Some err] is the early return. *)
Fixpoint ApplyUpdates_loop
    (kvs : list (statedb.CompositeKey * statedb.VersionedValue))
    : couchdb.Prog (option error) :=
  match kvs with
  | [] => couchdb.Ret None
  | (ck, vv) :: kvs' =>
      let compositeKey :=
        constructCompositeKey (statedb.Namespace ck) (statedb.Key ck) in
      if IsJSON (string_of_slice (statedb.Value vv)) then
        (* SaveDoc using couchdb client and use JSON format *)
        '(rev, err) ← couchdb.SaveDoc (string_of_list_byte compositeKey) EmptyString
                        (statedb.Value vv) [];
        match err with
        | Some _ => couchdb.Ret err
        | None => ApplyUpdates_loop kvs'
        end
      else
        (* if the data is not JSON, save as binary attachment in Couch *)
        let attachment :=
          {| couchdb.AttachmentBytes := statedb.Value vv;
             couchdb.ContentType := "application/octet-stream";
             couchdb.Name := "valueBytes" |} in
        let attachments := [] ++ [attachment] in
        '(rev, err) ← couchdb.SaveDoc (string_of_list_byte compositeKey) EmptyString
                        None attachments;
        match err with
        | Some _ => couchdb.Ret err
        | None => ApplyUpdates_loop kvs'
        end
  end.

(** recordSavepoint Record a savepoint in statedb.  Couch parallelizes
    writes in cluster or sharded setup and ordering is not guaranteed.
    Hence we need to fence the savepoint with sync.  So
    ensure_full_commit is called before AND after writing savepoint
    document *)
Definition recordSavepoint (height : version.Height) : couchdb.Prog (option error) :=
  (* ensure full commit to flush all changes until now to disk *)
  '(dbResponse, err) ← couchdb.EnsureFullCommit;
  if bool_decide (err <> None) || negb (couchdb.Ok dbResponse)
  then couchdb.Ret (Some (errors_New "Failed to perform full commit"))
  else
    (* construct savepoint document *)
    '(dbInfo, err) ← couchdb.GetDatabaseInfo;
    match err with
    | Some _ => couchdb.Ret err
    | None =>
        let savepointDoc :=
          {| BlockNum := version.BlockNum height;
             TxNum := version.TxNum height;
             UpdateSeq := couchdb.UpdateSeq dbInfo |} in
        let '(savepointDocJSON, err) := json_Marshal savepointDoc in
        match err with
        | Some _ => couchdb.Ret err
        | None =>
            (* SaveDoc using couchdb client and use JSON format *)
            '(_, err) ← couchdb.SaveDoc savepointDocID EmptyString savepointDocJSON [];
            match err with
            | Some _ => couchdb.Ret err
            | None =>
                (* ensure full commit to flush savepoint to disk *)
                '(dbResponse, err) ← couchdb.EnsureFullCommit;
                if bool_decide (err <> None) || negb (couchdb.Ok dbResponse)
                then couchdb.Ret (Some (errors_New "Failed to perform full commit"))
                else couchdb.Ret None
            end
        end
    end.

(** ApplyUpdates implements method in VersionedDB interface *)
Definition ApplyUpdates (batch : statedb.UpdateBatch) (height : version.Height)
    : couchdb.Prog (option error) :=
  err ← ApplyUpdates_loop (rangeKVs (statedb.KVs batch));
  match err with
  | Some _ => couchdb.Ret err
  | None =>
      (* Record a savepoint at a given height *)
      err ← recordSavepoint height;
      match err with
      | Some _ => couchdb.Ret err
      | None => couchdb.Ret None
      end
  end.

(** GetLatestSavePoint implements method in VersionedDB interface *)
Definition GetLatestSavePoint : couchdb.Prog (version.Height * option error) :=
  '(savepointJSON, _, err) ← couchdb.ReadDoc savepointDocID;
  match err with
  | Some _ => couchdb.Ret ({| version.BlockNum := 0; version.TxNum := 0 |}, err)
  | None =>
      (* ReadDoc() not found (404) will result in nil response, in these
         cases return height 0 *)
      match savepointJSON with
      | None => couchdb.Ret ({| version.BlockNum := 0; version.TxNum := 0 |}, None)
      | Some text =>
          let '(savepointDoc, err) := json_Unmarshal text in
          match err with
          | Some _ =>
              couchdb.Ret ({| version.BlockNum := 0; version.TxNum := 0 |}, err)
          | None =>
              couchdb.Ret ({| version.BlockNum := BlockNum savepointDoc;
                      version.TxNum := TxNum savepointDoc |}, None)
          end
      end
  end.
End VersionedDB.

(** ** The scanners *)

Definition kvScanner_Next (scanner : kvScanner.t)
    : outcome (option statedb.VersionedKV * option error) * kvScanner.t :=
  let scanner :=
    {| kvScanner.cursor := int_wrap (kvScanner.cursor scanner + 1);
       kvScanner.namespace := kvScanner.namespace scanner;
       kvScanner.results := kvScanner.results scanner |} in
  if (kvScanner.cursor scanner >=? Z.of_nat (length (kvScanner.results scanner)))%Z
  then (Returned (None, None), scanner)
  else
    match slice_index (kvScanner.results scanner) (kvScanner.cursor scanner) with
    | Panicked msg => (Panicked msg, scanner)
    | Returned selectedKV =>
        match splitCompositeKey (list_byte_of_string (couchdb.ID selectedKV)) with
        | Panicked msg => (Panicked msg, scanner)
        | Returned (_, key) =>
            (Returned
               (Some {| statedb.CK :=
                          {| statedb.Namespace := kvScanner.namespace scanner;
                             statedb.Key := key |};
                        statedb.VV :=
                          {| statedb.Value := couchdb.Value selectedKV;
                             statedb.Version := version.NewHeight 1 1 |} |},
                None),
             scanner)
        end
    end.

Definition queryScanner_Next (scanner : queryScanner.t)
    : outcome (option statedb.VersionedQueryRecord * option error) * queryScanner.t :=
  let scanner :=
    {| queryScanner.cursor := int_wrap (queryScanner.cursor scanner + 1);
       queryScanner.results := queryScanner.results scanner |} in
  if (queryScanner.cursor scanner
        >=? Z.of_nat (length (queryScanner.results scanner)))%Z
  then (Returned (None, None), scanner)
  else
    match slice_index (queryScanner.results scanner) (queryScanner.cursor scanner) with
    | Panicked msg => (Panicked msg, scanner)
    | Returned selectedResultRecord =>
        match splitCompositeKey
                (list_byte_of_string (couchdb.ID selectedResultRecord)) with
        | Panicked msg => (Panicked msg, scanner)
        | Returned (namespace, key) =>
            (Returned
               (Some {| statedb.QNamespace := namespace;
                        statedb.QKey := key;
                        statedb.QVersion := version.NewHeight 1 1;
                        statedb.Record_ := couchdb.Value selectedResultRecord |},
                None),
             scanner)
        end
    end.

(** ** The document store behind the client *)

Module store.
(** Modelled from the spec: the documents of the backing store, which
    is reached through the client package [couchdb] and is not among
    these sources.  A document is addressed by a string identifier and
    holds either a JSON payload or a named binary attachment; reading a
    document gives back the value that was stored, byte for byte. *)
Record Doc := {
  body : option bytes;
  attachments : list couchdb.Attachment
}.

Definition doc_value (d : Doc) : option bytes :=
  match attachments d with
  | a :: _ => couchdb.AttachmentBytes a
  | [] => body d
  end.

(** Modelled from the spec: the range query of the backing store, which
    returns the documents whose identifiers fall within an
    inclusive-start, exclusive-end lexicographic range, in identifier
    order, capped at [limit] after skipping [skip]. *)
Definition in_range (startKey endKey id : string) : Prop :=
  string_le startKey id /\ string_lt id endKey.

#[global] Instance in_range_dec s e id : Decision (in_range s e id).
Proof. unfold in_range. apply _. Defined.

Definition id_le (p q : string * Doc) : Prop := string_le p.1 q.1.

#[global] Instance id_le_dec p q : Decision (id_le p q).
Proof. unfold id_le. apply _. Defined.

Definition to_result (p : string * Doc) : couchdb.QueryResult :=
  {| couchdb.ID := p.1; couchdb.Value := doc_value p.2 |}.

Definition docs_in_range (startKey endKey : string) (m : gmap string Doc)
    : list couchdb.QueryResult :=
  to_result <$>
    merge_sort id_le
      (filter (fun p => in_range startKey endKey p.1) (map_to_list m)).

Definition range_query (startKey endKey : string) (limit skip : Z)
    (m : gmap string Doc) : list couchdb.QueryResult :=
  take (Z.to_nat limit) (drop (Z.to_nat skip) (docs_in_range startKey endKey m)).

(** Modelled from the spec: what the calls of the client do to the
    documents of the backing store.  [docs_of] gives the documents a
    database state holds.  A call may fail (an error result) at any
    time.  A read leaves the documents alone and, when it succeeds,
    returns the stored value, or nil for a document that is not found.
    A save that succeeds replaces the document under its identifier,
    whatever is there, and no save touches another document.  The
    flush, the database-info call and the queries leave the documents
    alone, and a range query that succeeds returns [range_query]. *)
Class Lawful (DB : Type) `{couchdb.CouchDatabase DB} := {
  docs_of : DB -> gmap string Doc;
  ReadDoc_docs : forall id db,
    docs_of (couchdb.handle_ReadDoc id db).2 = docs_of db;
  ReadDoc_value : forall id db,
    (couchdb.handle_ReadDoc id db).1.2 = None ->
    (couchdb.handle_ReadDoc id db).1.1.1 = docs_of db !! id ≫= doc_value;
  SaveDoc_docs : forall id rev b atts db,
    (couchdb.handle_SaveDoc id rev b atts db).1.2 = None ->
    docs_of (couchdb.handle_SaveDoc id rev b atts db).2
    = <[id := {| body := b; attachments := atts |}]> (docs_of db);
  SaveDoc_others : forall id rev b atts db id',
    id' <> id ->
    docs_of (couchdb.handle_SaveDoc id rev b atts db).2 !! id'
    = docs_of db !! id';
  EnsureFullCommit_docs : forall db,
    docs_of (couchdb.handle_EnsureFullCommit db).2 = docs_of db;
  GetDatabaseInfo_docs : forall db,
    docs_of (couchdb.handle_GetDatabaseInfo db).2 = docs_of db;
  ReadDocRange_docs : forall s e l sk db,
    docs_of (couchdb.handle_ReadDocRange s e l sk db).2 = docs_of db;
  ReadDocRange_value : forall s e l sk db,
    (couchdb.handle_ReadDocRange s e l sk db).1.2 = None ->
    (couchdb.handle_ReadDocRange s e l sk db).1.1
    = range_query s e l sk (docs_of db);
  QueryDocuments_docs : forall q l sk db,
    docs_of (couchdb.handle_QueryDocuments q l sk db).2 = docs_of db
}.
End store.

(** ** An in-memory store *)

(** A store held in memory, used to run the package on concrete inputs.
    Reads and saves always succeed; each flush answers with the next
    entry of [commits], and with an ok response once these are used up;
    the change sequence counts the saves. *)
Module memdb.
Record t := {
  docs : gmap string store.Doc;
  seq : N;
  commits : list couchdb.CommitResult
}.

Definition empty : t := {| docs := ∅; seq := 0; commits := [] |}.

Definition decimal (n : N) : string :=
  DecimalString.NilEmpty.string_of_uint (N.to_uint n).

Definition ReadDoc (id : string) (db : t) : couchdb.ReadDocResult * t :=
  ((docs db !! id ≫= store.doc_value, EmptyString, None), db).

Definition SaveDoc (id rev : string) (b : option bytes)
    (atts : list couchdb.Attachment) (db : t) : couchdb.SaveDocResult * t :=
  ((decimal (seq db + 1), None),
   {| docs := <[id := {| store.body := b; store.attachments := atts |}]> (docs db);
      seq := seq db + 1;
      commits := commits db |}).

Definition EnsureFullCommit (db : t) : couchdb.CommitResult * t :=
  match commits db with
  | [] => (({| couchdb.Ok := true |}, None), db)
  | r :: rest => (r, {| docs := docs db; seq := seq db; commits := rest |})
  end.

Definition GetDatabaseInfo (db : t) : couchdb.InfoResult * t :=
  (({| couchdb.UpdateSeq := decimal (seq db) |}, None), db).

Definition ReadDocRange (s e : string) (l sk : Z) (db : t)
    : couchdb.QueryResults * t :=
  ((store.range_query s e l sk (docs db), None), db).

(** The query language is the store's own; this store answers every
    query with all its documents, in identifier order. *)
Definition QueryDocuments (q : string) (l sk : Z) (db : t)
    : couchdb.QueryResults * t :=
  ((take (Z.to_nat l) (drop (Z.to_nat sk)
      (store.to_result <$> merge_sort store.id_le (map_to_list (docs db)))),
    None), db).

#[global] Instance couch : couchdb.CouchDatabase t := {|
  couchdb.handle_ReadDoc := ReadDoc;
  couchdb.handle_SaveDoc := SaveDoc;
  couchdb.handle_EnsureFullCommit := EnsureFullCommit;
  couchdb.handle_GetDatabaseInfo := GetDatabaseInfo;
  couchdb.handle_ReadDocRange := ReadDocRange;
  couchdb.handle_QueryDocuments := QueryDocuments
|}.

(** The in-memory store is lawful. *)
#[global] Instance lawful : store.Lawful t.
Proof.
refine {| store.docs_of := docs |}; intros; cbn; try done.
- by apply lookup_insert_ne.
- unfold EnsureFullCommit. by destruct (commits _).
Defined.
End memdb.

(** ** A JSON codec for the savepoint document *)

(** A writer and a reader for the one JSON shape the package produces,
    the object with the members BlockNum, TxNum and UpdateSeq, used to
    run the package on concrete inputs.  The writer covers update
    sequences without a double quote (which [encoding/json] would
    escape) and reports the others as an error. *)
Module sample.
Local Open Scope string_scope.

Definition dquote : ascii := ascii_of_byte x22.
Definition quoted (s : string) : string :=
  String dquote (s ++ String dquote EmptyString).
Definition member (name : string) : string := quoted name ++ ":".

Definition is_digit (a : ascii) : bool :=
  ((48 <=? N_of_ascii a) && (N_of_ascii a <=? 57))%N.

Fixpoint has_dquote (s : string) : bool :=
  match s with
  | EmptyString => false
  | String a s' => Ascii.eqb a dquote || has_dquote s'
  end.

Definition open_BlockNum : string := "{" ++ member "BlockNum".
Definition then_TxNum : string := "," ++ member "TxNum".
Definition then_UpdateSeq : string :=
  "," ++ member "UpdateSeq" ++ String dquote EmptyString.
Definition close : string := String dquote "}".

Definition text_of (d : couchSavepointData) : string :=
  open_BlockNum ++ memdb.decimal (BlockNum d)
  ++ then_TxNum ++ memdb.decimal (TxNum d)
  ++ then_UpdateSeq ++ UpdateSeq d ++ close.

Definition Marshal (d : couchSavepointData) : option bytes * option error :=
  if has_dquote (UpdateSeq d)
  then (None, Some (errors_New "json: unsupported value"))
  else (Some (list_byte_of_string (text_of d)), None).

Fixpoint strip (prefix s : string) : option string :=
  match prefix, s with
  | EmptyString, _ => Some s
  | String a prefix', String b s' =>
      if Ascii.eqb a b then strip prefix' s' else None
  | String _ _, EmptyString => None
  end.

Fixpoint digits (s : string) : string * string :=
  match s with
  | EmptyString => (EmptyString, EmptyString)
  | String a s' =>
      if is_digit a
      then let '(d, r) := digits s' in (String a d, r)
      else (EmptyString, s)
  end.

Fixpoint until_dquote (s : string) : string * string :=
  match s with
  | EmptyString => (EmptyString, EmptyString)
  | String a s' =>
      if Ascii.eqb a dquote then (EmptyString, s)
      else let '(d, r) := until_dquote s' in (String a d, r)
  end.

Definition number (s : string) : option (N * string) :=
  let '(d, r) := digits s in
  match d with
  | EmptyString => None
  | _ => (fun u => (N.of_uint u, r)) <$> DecimalString.NilEmpty.uint_of_string d
  end.

Definition parse (s : string) : option couchSavepointData :=
  s ← strip open_BlockNum s;
  '(blockNum, s) ← number s;
  s ← strip then_TxNum s;
  '(txNum, s) ← number s;
  s ← strip then_UpdateSeq s;
  let '(updateSeq, s) := until_dquote s in
  s ← strip close s;
  match s with
  | EmptyString =>
      Some {| BlockNum := blockNum; TxNum := txNum; UpdateSeq := updateSeq |}
  | _ => None
  end.

Definition Unmarshal (data : bytes) : couchSavepointData * option error :=
  match parse (string_of_list_byte data) with
  | Some d => (d, None)
  | None =>
      ({| BlockNum := 0; TxNum := 0; UpdateSeq := EmptyString |},
       Some (errors_New "json: cannot unmarshal"))
  end.

(** The client's JSON test, reduced to its first step: the text opens an
    object. *)
Definition IsJSON (s : string) : bool :=
  match s with
  | String a _ => Ascii.eqb a "{"
  | EmptyString => false
  end.

#[global] Instance externals : Externals :=
  Build_Externals IsJSON Marshal Unmarshal map_to_list.
End sample.

(** ** A store that cannot be reached *)

(** Every call fails with a transport error and changes nothing. *)
Module downdb.
Definition refused : error := errors_New "connection refused".

#[global] Instance couch : couchdb.CouchDatabase unit := {|
couchdb.handle_ReadDoc := fun _ db => ((None, EmptyString, Some refused), db);
couchdb.handle_SaveDoc := fun _ _ _ _ db => ((EmptyString, Some refused), db);
couchdb.handle_EnsureFullCommit := fun db =>
  (({| couchdb.Ok := false |}, Some refused), db);
couchdb.handle_GetDatabaseInfo := fun db =>
  (({| couchdb.UpdateSeq := EmptyString |}, Some refused), db);
couchdb.handle_ReadDocRange := fun _ _ _ _ db => (([], Some refused), db);
couchdb.handle_QueryDocuments := fun _ _ _ db => (([], Some refused), db)
|}.
End downdb.

(** ** Vocabulary of the properties *)

(** The point reads of [keys], one after the other in list order, each
    run from the database state the previous one left. *)
Fixpoint point_reads {DB} `{!couchdb.CouchDatabase DB} (namespace : string)
    (keys : list string) (db : DB)
    : list (couchdb.Run (option statedb.VersionedValue * option error) DB) :=
  match keys with
  | [] => []
  | key :: keys' =>
      let rd := couchdb.exec (GetState namespace key) db in
      rd :: point_reads namespace keys' (couchdb.final rd)
  end.

(** A run that returned no error. *)
Definition succeeded {A B DB} (rd : couchdb.Run (A * option B) DB) : Prop :=
  (couchdb.result rd).2 = None.

(** The error a call returned. *)
Definition event_error (ev : couchdb.event) : option error :=
  match ev with
  | couchdb.EvReadDoc _ r => r.2
  | couchdb.EvSaveDoc _ _ _ _ r => r.2
  | couchdb.EvEnsureFullCommit r => r.2
  | couchdb.EvGetDatabaseInfo r => r.2
  | couchdb.EvReadDocRange _ _ _ _ r => r.2
  | couchdb.EvQueryDocuments _ _ _ r => r.2
  end.

(** A flush failed: it returned an error or a response that is not ok. *)
Definition commit_failed (r : couchdb.CommitResult) : Prop :=
  r.2 <> None \/ couchdb.Ok r.1 <> true.

#[global] Instance commit_failed_dec r : Decision (commit_failed r).
Proof. unfold commit_failed. apply _. Defined.

(** The results of the flushes among the calls, in order. *)
Fixpoint commits_of (evs : list couchdb.event) : list couchdb.CommitResult :=
  match evs with
  | [] => []
  | couchdb.EvEnsureFullCommit r :: evs' => r :: commits_of evs'
  | _ :: evs' => commits_of evs'
  end.

(** The identifier under which a batch entry is stored. *)
Definition entry_id (kv : statedb.CompositeKey * statedb.VersionedValue) : string :=
  string_of_list_byte
    (constructCompositeKey (statedb.Namespace kv.1) (statedb.Key kv.1)).

(** The write of a batch entry as the specification words it: a value that
    is JSON goes in as the document body, any other value as the one
    attachment named valueBytes of type application/octet-stream, and
    either way no revision is given. *)
Definition entry_write `{Externals}
    (kv : statedb.CompositeKey * statedb.VersionedValue)
    (ev : couchdb.event) : Prop :=
  exists res,
    ev = if IsJSON (string_of_slice (statedb.Value kv.2))
         then couchdb.EvSaveDoc (entry_id kv) EmptyString (statedb.Value kv.2) [] res
         else couchdb.EvSaveDoc (entry_id kv) EmptyString None
                [{| couchdb.AttachmentBytes := statedb.Value kv.2;
                    couchdb.ContentType := "application/octet-stream";
                    couchdb.Name := "valueBytes" |}] res.

(** The savepoint record of a height and a change-sequence marker. *)
Definition savepoint_record (height : version.Height) (marker : string)
    : couchSavepointData :=
  {| BlockNum := version.BlockNum height;
     TxNum := version.TxNum height;
     UpdateSeq := marker |}.

(** A call that checks no revision: it is not a read of a document, and a
    save names no revision. *)
Definition blind (ev : couchdb.event) : Prop :=
  match ev with
  | couchdb.EvReadDoc _ _ => False
  | couchdb.EvSaveDoc _ rev _ _ _ => rev = EmptyString
  | _ => True
  end.

(** The scanners after [n] calls of [Next]. *)
Definition kvScanner_after (n : nat) (scanner : kvScanner.t) : kvScanner.t :=
  Nat.iter n (fun s => (kvScanner_Next s).2) scanner.

Definition queryScanner_after (n : nat) (scanner : queryScanner.t)
    : queryScanner.t :=
  Nat.iter n (fun s => (queryScanner_Next s).2) scanner.

(** ** Concrete inputs *)

Module example.
Definition key (ns k : string) : statedb.CompositeKey :=
{| statedb.Namespace := ns; statedb.Key := k |}.

Definition value (b : bytes) : statedb.VersionedValue :=
{| statedb.Value := Some b; statedb.Version := version.NewHeight 1 1 |}.

(** One JSON value and one binary value under the namespace chaincode1. *)
Definition batch : statedb.UpdateBatch :=
{| statedb.KVs :=
     <[key "chaincode1" "alice" := value (list_byte_of_string "{}")]>
       (<[key "chaincode1" "bob" := value [xde; xad; xbe; xef]]> ∅) |}.

(** A later batch, of one key in another namespace. *)
Definition batch2 : statedb.UpdateBatch :=
{| statedb.KVs := {[key "chaincode2" "carol" := value (list_byte_of_string "7")]} |}.

Definition height : version.Height := version.NewHeight 5 2.
Definition height2 : version.Height := version.NewHeight 6 0.

Definition ok : couchdb.CommitResult := ({| couchdb.Ok := true |}, None).
Definition not_ok : couchdb.CommitResult := ({| couchdb.Ok := false |}, None).

(** An empty store whose fourth flush answers not ok. *)
Definition fourth_flush_fails : memdb.t :=
{| memdb.docs := ∅; memdb.seq := 0; memdb.commits := [ok; ok; ok; not_ok] |}.

(** An empty store whose first flush answers not ok. *)
Definition first_flush_fails : memdb.t :=
{| memdb.docs := ∅; memdb.seq := 0; memdb.commits := [not_ok] |}.

(** The store after [batch] has been applied at [height]. *)
Definition applied : memdb.t :=
couchdb.final (couchdb.exec (ApplyUpdates batch height) memdb.empty).

(** A store that holds a savepoint document that is not a savepoint
  record. *)
Definition garbled : memdb.t :=
{| memdb.docs :=
     {[savepointDocID :=
         {| store.body := Some (list_byte_of_string "oops");
            store.attachments := [] |}]};
   memdb.seq := 1; memdb.commits := [] |}.

(** Query results as a query over all documents returns them: the
  savepoint document is among them. *)
Definition with_savepoint : list couchdb.QueryResult :=
[{| couchdb.ID := savepointDocID; couchdb.Value := None |}].

Definition two_results : list couchdb.QueryResult :=
[{| couchdb.ID := string_of_list_byte (constructCompositeKey "ns" "a");
    couchdb.Value := Some [x31] |};
 {| couchdb.ID := string_of_list_byte (constructCompositeKey "ns" "b");
    couchdb.Value := Some [x32] |}].
End example.

(** ** Further vocabulary *)

(** The document a batch entry is stored as. *)
Definition entry_doc `{Externals}
    (kv : statedb.CompositeKey * statedb.VersionedValue) : store.Doc :=
  if IsJSON (string_of_slice (statedb.Value kv.2))
  then {| store.body := statedb.Value kv.2; store.attachments := [] |}
  else {| store.body := None;
          store.attachments :=
            [{| couchdb.AttachmentBytes := statedb.Value kv.2;
                couchdb.ContentType := "application/octet-stream";
                couchdb.Name := "valueBytes" |}] |}.

(** What a point read gives for a stored value: a nil value reads as an
    absent key, any other value comes back with the placeholder version. *)
Definition read_back (value : option bytes) : option statedb.VersionedValue :=
  match value with
  | Some b => Some {| statedb.Value := Some b;
                      statedb.Version := version.NewHeight 1 1 |}
  | None => None
  end.

(** Every namespace of the batch is free of the separator byte. *)
Definition batch_namespaces_ok (batch : statedb.UpdateBatch) : Prop :=
  forall ck vv, statedb.KVs batch !! ck = Some vv -> ~ hasSep (statedb.Namespace ck).

(** A call that only reads: a document read, a range query or a query. *)
Definition reads_only (ev : couchdb.event) : Prop :=
  match ev with
  | couchdb.EvReadDoc _ _
  | couchdb.EvReadDocRange _ _ _ _ _
  | couchdb.EvQueryDocuments _ _ _ _ => True
  | _ => False
  end.


(** The record a range scanner returns for a store result decoded to
    [key]. *)
Definition kv_record (namespace key : string) (q : couchdb.QueryResult)
    : statedb.VersionedKV :=
  {| statedb.CK := {| statedb.Namespace := namespace; statedb.Key := key |};
     statedb.VV := {| statedb.Value := couchdb.Value q;
                      statedb.Version := version.NewHeight 1 1 |} |}.

(** The record a query scanner returns for a store result decoded to
    [namespace] and [key]. *)
Definition query_record (namespace key : string) (q : couchdb.QueryResult)
    : statedb.VersionedQueryRecord :=
  {| statedb.QNamespace := namespace;
     statedb.QKey := key;
     statedb.QVersion := version.NewHeight 1 1;
     statedb.Record_ := couchdb.Value q |}.

(** ** The provider of database handles *)

(** What the provider takes from outside these sources: the CouchDB
    definition of the ledger configuration, the two constructors of the
    client package, each a call on the server behind it ([S] is the state
    of that server, [I] a connection to it, [H] a database handle), and
    [strings.ToLower]. *)
Class ProviderExternals (S I H : Type) := {
  GetCouchDBDefinition : S -> string * string * string;
  CreateCouchInstance : string -> string -> string -> S -> (I * option error) * S;
  CreateCouchDatabase : I -> string -> S -> (H * option error) * S;
  strings_ToLower : string -> string
}.

Module VersionedDBProvider.
(** VersionedDB implements VersionedDB interface *)
Record VersionedDB (H : Type) := { db : H; dbName : string }.
Arguments db {H} _.
Arguments dbName {H} _.

(** VersionedDBProvider implements interface VersionedDBProvider *)
Record t (I H : Type) := {
  couchInstance : I;
  databases : gmap string (VersionedDB H);
  openCounts : N
}.
Arguments couchInstance {I H} _.
Arguments databases {I H} _.
Arguments openCounts {I H} _.

Section Provider.
Context {S I H : Type} `{!ProviderExternals S I H}.

(** NewVersionedDBProvider instantiates VersionedDBProvider *)
Definition NewVersionedDBProvider (s : S)
    : (option (t I H) * option error) * S :=
  let '(URL, Username, Password) := GetCouchDBDefinition s in
  let '((couchInstance, err), s) := CreateCouchInstance URL Username Password s in
  match err with
  | Some _ => ((None, err), s)
  | None =>
      ((Some {| couchInstance := couchInstance; databases := ∅; openCounts := 0 |},
        None), s)
  end.

(** newVersionedDB constructs an instance of VersionedDB *)
Definition newVersionedDB (couchInstance : I) (dbName : string) (s : S)
    : (option (VersionedDB H) * option error) * S :=
  let '((db, err), s) := CreateCouchDatabase couchInstance dbName s in
  match err with
  | Some _ => ((None, err), s)
  | None => ((Some {| db := db; dbName := dbName |}, None), s)
  end.

(** GetDBHandle gets the handle to a named database *)
Definition GetDBHandle (dbName : string) (provider : t I H) (s : S)
    : (option (VersionedDB H) * option error) * t I H * S :=
  let dbName := strings_ToLower dbName in
  match databases provider !! dbName with
  | Some vdb => ((Some vdb, None), provider, s)
  | None =>
      let '((vdb, err), s) := newVersionedDB (couchInstance provider) dbName s in
      match err with
      | Some _ => ((None, err), provider, s)
      | None =>
          match vdb with
          | Some v =>
              ((vdb, None),
               {| couchInstance := couchInstance provider;
                  databases := <[dbName := v]> (databases provider);
                  openCounts := openCounts provider |},
               s)
          | None =>
              (* newVersionedDB returns no nil handle without an error *)
              ((None, None), provider, s)
          end
      end
  end.
End Provider.

(** The registry holds each handle under its own database name. *)
Definition keyed_by_name {I H} (provider : t I H) : Prop :=
  forall name vdb, databases provider !! name = Some vdb -> dbName vdb = name.
End VersionedDBProvider.

(** ** Package [ledgermgmt] *)

(** What ledger management takes from outside these sources: the ledger
    provider of package [kvledger] and the ledgers it hands out ([W] is
    the state of the storage behind them, [L] a ledger), and the order in
    which a [range] statement visits the entries of a map.
    [kvledger.NewProvider] returns an error or sets the provider up;
    the methods of the provider and [PeerLedger.Close] act on the
    storage. *)
Class LedgerExternals (W L : Type) := {
  kvledger_NewProvider : W -> option error * W;
  provider_Create : string -> W -> (L * option error) * W;
  provider_Open : string -> W -> (L * option error) * W;
  provider_List : W -> (option (list string) * option error) * W;
  provider_Close : W -> W;
  PeerLedger_Close : L -> W -> W;
  rangeLedgers : forall {V : Type}, gmap string V -> list (string * V)
}.

(** A [range] visits every entry of the map exactly once. *)
Class LedgerExternalsLaws (W L : Type) `{!LedgerExternals W L} := {
  rangeLedgers_Permutation :
    forall (V : Type) (m : gmap string V), rangeLedgers m ≡ₚ map_to_list m
}.

Module ledgermgmt.
(** ErrLedgerAlreadyOpened is thrown by a CreateLedger call if a ledger
    with the given id is already opened *)
Definition ErrLedgerAlreadyOpened : error := errors_New "Ledger already opened".

(** ErrLedgerMgmtNotInitialized is thrown when ledger mgmt is used before
    initializing this *)
Definition ErrLedgerMgmtNotInitialized : error :=
  errors_New "ledger mgmt should be initialized before using".

(** ClosableLedger extends from actual validated ledger and overwrites
    the Close method *)
Record ClosableLedger (L : Type) := { id : string; PeerLedger : L }.
Arguments id {L} _.
Arguments PeerLedger {L} _.

(** The package-level variables, with the state of the storage: a nil map
    and a nil provider are [None] and [false]; [once] tells whether
    [once.Do] has run. *)
Record t (W L : Type) := {
  openedLedgers : option (gmap string (ClosableLedger L));
  ledgerProvider : bool;
  initialized : bool;
  once : bool;
  world : W
}.
Arguments openedLedgers {W L} _.
Arguments ledgerProvider {W L} _.
Arguments initialized {W L} _.
Arguments once {W L} _.
Arguments world {W L} _.

(** The state of the package when the program starts. *)
Definition start {W L} (w : W) : t W L :=
  {| openedLedgers := None; ledgerProvider := false;
     initialized := false; once := false; world := w |}.

Section Mgmt.
Context {W L : Type} `{!LedgerExternals W L}.

Definition set_world (st : t W L) (w : W) : t W L :=
  {| openedLedgers := openedLedgers st; ledgerProvider := ledgerProvider st;
     initialized := initialized st; once := once st; world := w |}.

Definition set_openedLedgers (st : t W L)
    (m : option (gmap string (ClosableLedger L))) : t W L :=
  {| openedLedgers := m; ledgerProvider := ledgerProvider st;
     initialized := initialized st; once := once st; world := world st |}.

Definition initialize (st : t W L) : outcome unit * t W L :=
  let st :=
    {| openedLedgers := Some ∅; ledgerProvider := ledgerProvider st;
       initialized := true; once := once st; world := world st |} in
  let '(err, w) := kvledger_NewProvider (world st) in
  let st := set_world st w in
  match err with
  | Some e =>
      (Panicked (String.append "Error in instantiating ledger provider: " e), st)
  | None =>
      (Returned tt,
       {| openedLedgers := openedLedgers st; ledgerProvider := true;
          initialized := initialized st; once := once st; world := world st |})
  end.

(** Initialize initializes ledgermgmt: [once.Do] runs [initialize] the
    first time only, and counts a run that panics as done. *)
Definition Initialize (st : t W L) : outcome unit * t W L :=
  if once st then (Returned tt, st)
  else
    let '(out, st) := initialize st in
    (out,
     {| openedLedgers := openedLedgers st; ledgerProvider := ledgerProvider st;
        initialized := initialized st; once := true; world := world st |}).

Definition wrapLedger (id : string) (l : L) : ClosableLedger L :=
  {| id := id; PeerLedger := l |}.

(** CreateLedger creates a new ledger with the given id *)
Definition CreateLedger (id : string) (st : t W L)
    : outcome (option (ClosableLedger L) * option error) * t W L :=
  if negb (initialized st)
  then (Returned (None, Some ErrLedgerMgmtNotInitialized), st)
  else if negb (ledgerProvider st)
  then (Panicked "invalid memory address or nil pointer dereference", st)
  else
    let '((l, err), w) := provider_Create id (world st) in
    let st := set_world st w in
    match err with
    | Some _ => (Returned (None, err), st)
    | None =>
        let l := wrapLedger id l in
        match openedLedgers st with
        | None => (Panicked "assignment to entry in nil map", st)
        | Some m =>
            (Returned (Some l, None), set_openedLedgers st (Some (<[id := l]> m)))
        end
    end.

(** OpenLedger returns a ledger for the given id *)
Definition OpenLedger (id : string) (st : t W L)
    : outcome (option (ClosableLedger L) * option error) * t W L :=
  if negb (initialized st)
  then (Returned (None, Some ErrLedgerMgmtNotInitialized), st)
  else
    match openedLedgers st ≫= (fun m => m !! id) with
    | Some _ => (Returned (None, Some ErrLedgerAlreadyOpened), st)
    | None =>
        if negb (ledgerProvider st)
        then (Panicked "invalid memory address or nil pointer dereference", st)
        else
          let '((l, err), w) := provider_Open id (world st) in
          let st := set_world st w in
          match err with
          | Some _ => (Returned (None, err), st)
          | None =>
              let l := wrapLedger id l in
              match openedLedgers st with
              | None => (Panicked "assignment to entry in nil map", st)
              | Some m =>
                  (Returned (Some l, None),
                   set_openedLedgers st (Some (<[id := l]> m)))
              end
          end
    end.

(** GetLedgerIDs returns the ids of the ledgers created *)
Definition GetLedgerIDs (st : t W L)
    : outcome (option (list string) * option error) * t W L :=
  if negb (initialized st)
  then (Returned (None, Some ErrLedgerMgmtNotInitialized), st)
  else if negb (ledgerProvider st)
  then (Panicked "invalid memory address or nil pointer dereference", st)
  else
    let '(ids, w) := provider_List (world st) in
    (Returned ids, set_world st w).

Definition closeWithoutLock (l : ClosableLedger L) (st : t W L) : t W L :=
  let st := set_world st (PeerLedger_Close (PeerLedger l) (world st)) in
  set_openedLedgers st (delete (id l) <$> openedLedgers st).

(** Close closes the actual ledger and removes the entries from opened
    ledgers map *)
Definition ClosableLedger_Close (l : ClosableLedger L) (st : t W L) : t W L :=
  closeWithoutLock l st.

(** The loop of [Close] over the entries in the order the [range] set
    out with: an entry that has been removed from the map before it is
    reached is not visited. *)
Fixpoint Close_range (entries : list (string * ClosableLedger L)) (st : t W L)
    : t W L :=
  match entries with
  | [] => st
  | (key, l) :: entries' =>
      match openedLedgers st ≫= (fun m => m !! key) with
      | Some _ => Close_range entries' (closeWithoutLock l st)
      | None => Close_range entries' st
      end
  end.

(** Close closes all the opened ledgers and any resources held for ledger
    management *)
Definition Close (st : t W L) : outcome unit * t W L :=
  if negb (initialized st) then (Returned tt, st)
  else
    let st := Close_range (rangeLedgers (default ∅ (openedLedgers st))) st in
    if negb (ledgerProvider st)
    then (Panicked "invalid memory address or nil pointer dereference", st)
    else
      let st := set_world st (provider_Close (world st)) in
      (Returned tt, set_openedLedgers st None).
End Mgmt.

(** Every ledger in the map is held under its own id. *)
Definition keyed_by_id {W L} (st : t W L) : Prop :=
  forall m key l, openedLedgers st = Some m -> m !! key = Some l -> id l = key.
End ledgermgmt.

(** The ledger held for an id, if any. *)
Definition opened {W L} (st : ledgermgmt.t W L) (ident : string)
    : option (ledgermgmt.ClosableLedger L) :=
  ledgermgmt.openedLedgers st ≫= (fun m => m !! ident).

(** Closing, one after the other, the ledgers of the entries given. *)
Definition close_each {W L} `{!LedgerExternals W L}
    (entries : list (string * ledgermgmt.ClosableLedger L)) (w : W) : W :=
  foldl (fun w kl => PeerLedger_Close (ledgermgmt.PeerLedger kl.2) w) w entries.

(** ** A server and a ledger provider held in memory *)

(** A server that records the names of the databases created on it, with
    [strings.ToLower] on ASCII text, used to run the provider on concrete
    inputs. *)
Module sample_server.
Definition lower (a : ascii) : ascii :=
  let n := N_of_ascii a in
  if ((65 <=? n) && (n <=? 90))%N then ascii_of_N (n + 32) else a.

Fixpoint ToLower (s : string) : string :=
  match s with
  | EmptyString => EmptyString
  | String a s' => String (lower a) (ToLower s')
  end.

#[global] Instance externals : ProviderExternals (list string) unit string := {|
  GetCouchDBDefinition := fun _ => ("localhost:5984"%string, EmptyString, EmptyString);
  CreateCouchInstance := fun _ _ _ s => ((tt, None), s);
  CreateCouchDatabase := fun _ name s => ((name, None), name :: s);
  strings_ToLower := ToLower
|}.

(** A provider with an empty registry. *)
Definition fresh : VersionedDBProvider.t unit string :=
  {| VersionedDBProvider.couchInstance := tt;
     VersionedDBProvider.databases := ∅;
     VersionedDBProvider.openCounts := 0 |}.
End sample_server.

(** A ledger provider that keeps the ids of the ledgers created and the
    ledgers closed, and cannot be set up when its storage is broken, used
    to run ledger management on concrete inputs. *)
Module sample_ledgers.
Record storage := { created : list string; closed : list string; broken : bool }.

Definition add_created (ident : string) (w : storage) : storage :=
  {| created := ident :: created w; closed := closed w; broken := broken w |}.

Definition add_closed (ident : string) (w : storage) : storage :=
  {| created := created w; closed := ident :: closed w; broken := broken w |}.

#[global] Instance externals : LedgerExternals storage string := {|
  kvledger_NewProvider := fun w =>
    (if broken w then Some (errors_New "storage is broken") else None, w);
  provider_Create := fun ident w =>
    if bool_decide (ident ∈ created w)
    then ((EmptyString, Some (errors_New "ledger exists")), w)
    else ((ident, None), add_created ident w);
  provider_Open := fun ident w =>
    if bool_decide (ident ∈ created w)
    then ((ident, None), w)
    else ((EmptyString, Some (errors_New "no such ledger")), w);
  provider_List := fun w => ((Some (created w), None), w);
  provider_Close := fun w => w;
  PeerLedger_Close := fun l w => add_closed l w;
  rangeLedgers := fun V m => map_to_list m
|}.

Definition empty : storage := {| created := []; closed := []; broken := false |}.
Definition unusable : storage := {| created := []; closed := []; broken := true |}.

(** The package initialized over a storage that holds the ledger a. *)
Definition ready : ledgermgmt.t storage string :=
  (ledgermgmt.Initialize (ledgermgmt.start (add_created "a" empty))).2.

(** The package with the ledgers a and b opened. *)
Definition two_opened : ledgermgmt.t storage string :=
  {| ledgermgmt.openedLedgers :=
       Some (<["a"%string := ledgermgmt.wrapLedger "a" "a"%string]>
               {["b"%string := ledgermgmt.wrapLedger "b" "b"%string]});
     ledgermgmt.ledgerProvider := true;
     ledgermgmt.initialized := true;
     ledgermgmt.once := true;
     ledgermgmt.world := add_created "a" (add_created "b" empty) |}.
End sample_ledgers.


(** * Properties *)

(** ** Facts about the byte ordering *)

Lemma byte_compare_refl b : byte_compare b b = Eq.
Proof. apply N.compare_refl. Qed.

Lemma byte_to_N_inj a b : Byte.to_N a = Byte.to_N b -> a = b.
Proof.
  intros E. pose proof (Byte.of_to_N a) as Ha.
  rewrite E, Byte.of_to_N in Ha. congruence.
Qed.

Lemma byte_compare_eq a b : byte_compare a b = Eq <-> a = b.
Proof.
  unfold byte_compare. rewrite N.compare_eq_iff. split.
  - apply byte_to_N_inj.
  - congruence.
Qed.

Lemma byte_compare_x00_l b : b <> x00 -> byte_compare x00 b = Lt.
Proof.
  intros Hb. unfold byte_compare. apply N.compare_lt_iff.
  assert (Byte.to_N b <> 0%N) by (intros E; apply Hb, byte_to_N_inj; exact E).
  change (Byte.to_N x00) with 0%N. lia.
Qed.

Lemma byte_compare_x00_r b : b <> x00 -> byte_compare b x00 = Gt.
Proof.
  intros Hb. unfold byte_compare. apply N.compare_gt_iff.
  assert (Byte.to_N b <> 0%N) by (intros E; apply Hb, byte_to_N_inj; exact E).
  change (Byte.to_N x00) with 0%N. lia.
Qed.

Lemma byte_compare_antisym a b : byte_compare b a = CompOpp (byte_compare a b).
Proof. apply N.compare_antisym. Qed.

Lemma bytes_Compare_refl a : bytes_Compare a a = Eq.
Proof. induction a as [|x a IH]; simpl; [done|]. by rewrite byte_compare_refl. Qed.

Lemma bytes_Compare_eq a b : bytes_Compare a b = Eq <-> a = b.
Proof.
  split; [|intros ->; apply bytes_Compare_refl].
  revert b. induction a as [|x a IH]; intros [|y b]; simpl; try done.
  destruct (byte_compare x y) eqn:E; try done.
  apply byte_compare_eq in E as ->. intros H. by rewrite (IH _ H).
Qed.

Lemma bytes_Compare_antisym a b :
  bytes_Compare b a = CompOpp (bytes_Compare a b).
Proof.
  revert b. induction a as [|x a IH]; intros [|y b]; simpl; try done.
  rewrite (byte_compare_antisym x y).
  destruct (byte_compare x y); simpl; auto.
Qed.

Lemma bytes_Compare_app_same p a b :
  bytes_Compare (p ++ a) (p ++ b) = bytes_Compare a b.
Proof. induction p as [|x p IH]; simpl; [done|]. by rewrite byte_compare_refl. Qed.

Lemma string_Compare_eq s t : string_Compare s t = Eq <-> s = t.
Proof.
  unfold string_Compare. rewrite bytes_Compare_eq. split; [|congruence].
  intros E. rewrite <- (string_of_list_byte_of_string s),
    <- (string_of_list_byte_of_string t). by rewrite E.
Qed.

(** Comparing two encoded keys compares the namespaces first and the keys
    second, as long as no namespace contains the separator. *)
Lemma bytes_Compare_sep n1 n2 k1 k2 :
  x00 ∉ n1 -> x00 ∉ n2 ->
  bytes_Compare (n1 ++ x00 :: k1) (n2 ++ x00 :: k2) =
  match bytes_Compare n1 n2 with
  | Eq => bytes_Compare k1 k2
  | c => c
  end.
Proof.
  revert n2. induction n1 as [|a n1 IH]; intros [|b n2] H1 H2;
    cbn [app bytes_Compare].
  - by rewrite byte_compare_refl.
  - rewrite byte_compare_x00_l; [done|]. intros ->. apply H2. left.
  - rewrite byte_compare_x00_r; [done|]. intros ->. apply H1. left.
  - destruct (byte_compare a b); try done.
    apply IH; [intros ?; apply H1 | intros ?; apply H2]; by right.
Qed.

Lemma constructCompositeKey_unfold ns key :
  constructCompositeKey ns key =
  list_byte_of_string ns ++ x00 :: list_byte_of_string key.
Proof. unfold constructCompositeKey, compositeKeySep. by rewrite <- app_assoc. Qed.

Lemma constructCompositeKey_Compare ns1 k1 ns2 k2 :
  ~ hasSep ns1 -> ~ hasSep ns2 ->
  bytes_Compare (constructCompositeKey ns1 k1) (constructCompositeKey ns2 k2) =
  match string_Compare ns1 ns2 with
  | Eq => string_Compare k1 k2
  | c => c
  end.
Proof.
  intros H1 H2. rewrite !constructCompositeKey_unfold.
  by apply bytes_Compare_sep.
Qed.

(** ** Facts about splitting *)

Lemma bytes_Index_sep_fresh n rest :
  x00 ∉ n -> bytes_Index (n ++ x00 :: rest) [x00] = Z.of_nat (length n).
Proof.
  induction n as [|a n IH]; intros Hn.
  - cbn [app bytes_Index bytes_HasPrefix length].
    by rewrite bool_decide_eq_true_2.
  - assert (a <> x00) by (intros ->; apply Hn; left).
    assert (x00 ∉ n) by (intros ?; apply Hn; by right).
    cbn [app bytes_Index bytes_HasPrefix length].
    rewrite bool_decide_eq_false_2 by done. cbn [andb].
    rewrite IH by done.
    destruct (Z.ltb_spec (Z.of_nat (length n)) 0); lia.
Qed.

Lemma bytes_SplitN_sep_fresh n rest :
  x00 ∉ n -> bytes_SplitN (n ++ x00 :: rest) compositeKeySep 2 = [n; rest].
Proof.
  intros Hn.
  change (bytes_SplitN (n ++ x00 :: rest) compositeKeySep 2)
    with (genSplit_loop 1 (n ++ x00 :: rest) [x00]).
  cbn [genSplit_loop]. rewrite bytes_Index_sep_fresh by done.
  destruct (Z.ltb_spec (Z.of_nat (length n)) 0); [lia|].
  rewrite Nat2Z.id. cbn [length].
  rewrite take_app_length.
  replace (length n + 1)%nat with (length (n ++ [x00]))
    by (rewrite length_app; simpl; lia).
  replace (n ++ x00 :: rest) with ((n ++ [x00]) ++ rest)
    by (by rewrite <- app_assoc).
  by rewrite drop_app_length.
Qed.

(** ** The codec properties *)

(** C4: for namespaces free of the separator byte, encoded composite keys
    order lexicographically exactly as the (namespace, key) pairs order by
    namespace first and key second; within one namespace they order by
    key, and every encoded key of a smaller namespace orders before every
    encoded key of a larger one. *)
Theorem constructCompositeKey_order ns1 k1 ns2 k2 :
  ~ hasSep ns1 -> ~ hasSep ns2 ->
  (bytes_lt (constructCompositeKey ns1 k1) (constructCompositeKey ns2 k2)
     <-> pair_lt (ns1, k1) (ns2, k2))
  /\ (ns1 = ns2 ->
      (bytes_lt (constructCompositeKey ns1 k1) (constructCompositeKey ns2 k2)
         <-> string_lt k1 k2))
  /\ (string_lt ns1 ns2 ->
      forall ka kb,
        bytes_lt (constructCompositeKey ns1 ka) (constructCompositeKey ns2 kb)).
Proof.
  intros H1 H2. unfold bytes_lt, pair_lt, string_lt. simpl. split; [|split].
  - rewrite constructCompositeKey_Compare by done.
    destruct (string_Compare ns1 ns2) eqn:E.
    + apply string_Compare_eq in E. split; [by right|].
      by intros [?|[_ ?]].
    + split; [by left|done].
    + split; [done|]. intros [?|[-> _]]; [done|].
      assert (string_Compare ns2 ns2 = Eq) by (by apply string_Compare_eq).
      congruence.
  - intros ->. rewrite constructCompositeKey_Compare by done.
    assert (string_Compare ns2 ns2 = Eq) as -> by (by apply string_Compare_eq).
    done.
  - intros Hlt ka kb. rewrite constructCompositeKey_Compare by done.
    by rewrite Hlt.
Qed.

Lemma constructCompositeKey_order_witness :
  ~ hasSep "nsA" /\ ~ hasSep "nsB" /\
  bytes_lt (constructCompositeKey "nsA" "z") (constructCompositeKey "nsB" "a").
Proof.
  assert (H1 : ~ hasSep "nsA") by (by apply (bool_decide_unpack _)).
  assert (H2 : ~ hasSep "nsB") by (by apply (bool_decide_unpack _)).
  split; [exact H1|]. split; [exact H2|].
  apply (constructCompositeKey_order "nsA" "z" "nsB" "a" H1 H2).
  reflexivity.
Defined.

Lemma splitCompositeKey_encoded ns key :
  ~ hasSep ns ->
  splitCompositeKey (constructCompositeKey ns key) = Returned (ns, key).
Proof.
  intros Hns. unfold splitCompositeKey.
  rewrite constructCompositeKey_unfold, bytes_SplitN_sep_fresh by done.
  simpl. by rewrite !string_of_list_byte_of_string.
Qed.

(** C10: decoding an encoded key gives back the namespace and the key when
    the namespace is free of the separator byte, whatever the key holds:
    the split is at the first separator. *)
Theorem splitCompositeKey_constructCompositeKey ns key :
  ~ hasSep ns ->
  splitCompositeKey (constructCompositeKey ns key) = Returned (ns, key).
Proof. apply splitCompositeKey_encoded. Qed.

Lemma splitCompositeKey_constructCompositeKey_witness :
  ~ hasSep "ns" /\
  splitCompositeKey
    (constructCompositeKey "ns" (String (ascii_of_byte x00) "k"))
  = Returned ("ns"%string, String (ascii_of_byte x00) "k").
Proof.
  assert (H : ~ hasSep "ns") by (by apply (bool_decide_unpack _)).
  split; [exact H|].
  apply (splitCompositeKey_constructCompositeKey "ns" _ H).
Defined.

(** ** Running programs *)

Section Running.
Context {DB : Type} `{!couchdb.CouchDatabase DB}.
Import couchdb.

Lemma exec_after {A} (e : event) (r : Run A DB) :
  result (after e r) = result r /\ final (after e r) = final r
  /\ calls (after e r) = e :: calls r.
Proof. done. Qed.

(** Running [p] and then [f] runs [f] from where [p] stopped and appends
    its calls. *)
Lemma exec_bind {A B} (p : Prog A) (f : A -> Prog B) (db : DB) :
  exec (p ≫= f) db =
  {| result := result (exec (f (result (exec p db))) (final (exec p db)));
     final := final (exec (f (result (exec p db))) (final (exec p db)));
     calls := calls (exec p db)
              ++ calls (exec (f (result (exec p db))) (final (exec p db))) |}.
Proof.
  change (p ≫= f) with (bind p f).
  revert db. induction p as [a|id k IH|id rev b atts k IH|k IH|k IH
                              |s e l sk k IH|q l sk k IH]; intros db;
    cbn [bind exec].
  - cbn. by destruct (exec (f a) db).
  - destruct (handle_ReadDoc id db) as [r db']. by rewrite IH.
  - destruct (handle_SaveDoc id rev b atts db) as [r db']. by rewrite IH.
  - destruct (handle_EnsureFullCommit db) as [r db']. by rewrite IH.
  - destruct (handle_GetDatabaseInfo db) as [r db']. by rewrite IH.
  - destruct (handle_ReadDocRange s e l sk db) as [r db']. by rewrite IH.
  - destruct (handle_QueryDocuments q l sk db) as [r db']. by rewrite IH.
Qed.

Lemma exec_ReadDoc id (db : DB) :
  exec (ReadDoc id) db =
  {| result := (handle_ReadDoc id db).1;
     final := (handle_ReadDoc id db).2;
     calls := [EvReadDoc id (handle_ReadDoc id db).1] |}.
Proof. unfold ReadDoc. cbn [exec]. by destruct (handle_ReadDoc id db). Qed.

Lemma exec_SaveDoc id rev b atts (db : DB) :
  exec (SaveDoc id rev b atts) db =
  {| result := (handle_SaveDoc id rev b atts db).1;
     final := (handle_SaveDoc id rev b atts db).2;
     calls := [EvSaveDoc id rev b atts (handle_SaveDoc id rev b atts db).1] |}.
Proof.
  unfold SaveDoc. cbn [exec]. by destruct (handle_SaveDoc id rev b atts db).
Qed.

Lemma exec_EnsureFullCommit (db : DB) :
  exec EnsureFullCommit db =
  {| result := (handle_EnsureFullCommit db).1;
     final := (handle_EnsureFullCommit db).2;
     calls := [EvEnsureFullCommit (handle_EnsureFullCommit db).1] |}.
Proof.
  unfold EnsureFullCommit. cbn [exec]. by destruct (handle_EnsureFullCommit db).
Qed.

Lemma exec_GetDatabaseInfo (db : DB) :
  exec GetDatabaseInfo db =
  {| result := (handle_GetDatabaseInfo db).1;
     final := (handle_GetDatabaseInfo db).2;
     calls := [EvGetDatabaseInfo (handle_GetDatabaseInfo db).1] |}.
Proof.
  unfold GetDatabaseInfo. cbn [exec]. by destruct (handle_GetDatabaseInfo db).
Qed.

Lemma exec_ReadDocRange s e l sk (db : DB) :
  exec (ReadDocRange s e l sk) db =
  {| result := (handle_ReadDocRange s e l sk db).1;
     final := (handle_ReadDocRange s e l sk db).2;
     calls := [EvReadDocRange s e l sk (handle_ReadDocRange s e l sk db).1] |}.
Proof.
  unfold ReadDocRange. cbn [exec]. by destruct (handle_ReadDocRange s e l sk db).
Qed.

Lemma exec_Ret {A} (a : A) (db : DB) :
  exec (Ret a) db = {| result := a; final := db; calls := [] |}.
Proof. done. Qed.
End Running.

(** ** Point reads *)

Section Reads.
Context {DB : Type} `{!couchdb.CouchDatabase DB}.

Lemma exec_GetState namespace key (db : DB) :
let id := string_of_list_byte (constructCompositeKey namespace key) in
let read := (couchdb.handle_ReadDoc id db).1 in
couchdb.exec (GetState namespace key) db =
{| couchdb.result :=
     match read.2, read.1.1 with
     | Some e, _ => (None, Some e)
     | None, None => (None, None)
     | None, Some b =>
         (Some {| statedb.Value := Some b;
                  statedb.Version := version.NewHeight 1 1 |}, None)
     end;
   couchdb.final := (couchdb.handle_ReadDoc id db).2;
   couchdb.calls := [couchdb.EvReadDoc id read] |}.
Proof.
intros id read. unfold GetState. rewrite exec_bind, exec_ReadDoc.
cbn [couchdb.result couchdb.final couchdb.calls].
fold id. subst read. destruct (couchdb.handle_ReadDoc id db) as [[[docBytes rev] err] db'].
cbn [fst snd]. by destruct err, docBytes.
Qed.

(** C6: a point read issues one read of the encoded key; a document that
  the store reports as not found, without an error, gives the absent
  result with no error, and an error of the store is returned as it is,
  with no value. *)
Theorem GetState_absent_or_error (namespace key : string) (db : DB) :
let id := string_of_list_byte (constructCompositeKey namespace key) in
let read := (couchdb.handle_ReadDoc id db).1 in
let r := couchdb.exec (GetState namespace key) db in
couchdb.calls r = [couchdb.EvReadDoc id read]
/\ (read.2 = None -> read.1.1 = None -> couchdb.result r = (None, None))
/\ (forall e, read.2 = Some e -> couchdb.result r = (None, Some e))
/\ (forall b, read.2 = None -> read.1.1 = Some b ->
    couchdb.result r
    = (Some {| statedb.Value := Some b;
               statedb.Version := version.NewHeight 1 1 |}, None)).
Proof.
intros id read r. subst r. rewrite exec_GetState. fold id read.
cbn [couchdb.result couchdb.calls].
split; [done|]. split; [|split].
- by intros -> ->.
- by intros e ->.
- by intros b -> ->.
Qed.

Lemma GetStateMultipleKeys_loop_ok namespace keys : forall i vals (db : DB),
length vals = (i + length keys)%nat ->
Forall succeeded (point_reads namespace keys db) ->
let r := couchdb.exec (GetStateMultipleKeys_loop namespace i keys vals) db in
couchdb.result r
= (Some (take i vals
         ++ ((fun rd => (couchdb.result rd).1) <$> point_reads namespace keys db)),
   None)
/\ couchdb.calls r = concat (couchdb.calls <$> point_reads namespace keys db).
Proof.
induction keys as [|key keys IH]; intros i vals db Hlen Hok r; subst r.
- cbn. rewrite app_nil_r, take_ge; [done|]. simpl in Hlen. lia.
- cbn [point_reads] in *. apply Forall_cons in Hok as [Hrd Hrds].
  cbn [GetStateMultipleKeys_loop]. rewrite exec_bind.
  unfold succeeded in Hrd.
  destruct (couchdb.result (couchdb.exec (GetState namespace key) db))
    as [val err] eqn:Eres.
  cbn [snd] in Hrd. subst err.
  cbn [couchdb.result couchdb.calls fmap list_fmap concat fst].
  cbn [length] in Hlen.
  destruct (IH (S i) (<[i:=val]> vals)
              (couchdb.final (couchdb.exec (GetState namespace key) db)))
    as [Hres Hcalls]; [rewrite length_insert; lia | done |].
  rewrite Hres, Hcalls. split; [|done].
  rewrite (take_S_r _ _ val), take_insert_ge by
    (try apply list_lookup_insert_eq; lia).
  by rewrite Eres, <- app_assoc.
Qed.

Lemma GetStateMultipleKeys_loop_err namespace keys : forall i vals (db : DB) j rd e,
point_reads namespace keys db !! j = Some rd ->
(couchdb.result rd).2 = Some e ->
Forall succeeded (take j (point_reads namespace keys db)) ->
let r := couchdb.exec (GetStateMultipleKeys_loop namespace i keys vals) db in
couchdb.result r = (None, Some e)
/\ couchdb.calls r
   = concat (couchdb.calls <$> take (S j) (point_reads namespace keys db)).
Proof.
induction keys as [|key keys IH]; intros i vals db j rd e Hj He Hok r; subst r.
- done.
- cbn [point_reads] in *. cbn [GetStateMultipleKeys_loop]. rewrite exec_bind.
  destruct j as [|j].
  + change (Some (couchdb.exec (GetState namespace key) db) = Some rd) in Hj.
    assert (rd = couchdb.exec (GetState namespace key) db) as -> by congruence.
    destruct (couchdb.result (couchdb.exec (GetState namespace key) db))
      as [val err] eqn:Eres.
    cbn [snd] in He. subst err.
    cbn [couchdb.result couchdb.calls take fmap list_fmap concat].
    by rewrite !app_nil_r.
  + change (point_reads namespace keys
              (couchdb.final (couchdb.exec (GetState namespace key) db)) !! j
            = Some rd) in Hj.
    rewrite firstn_cons in Hok |- *.
    apply Forall_cons in Hok as [Hrd Hrds].
    unfold succeeded in Hrd.
    destruct (couchdb.result (couchdb.exec (GetState namespace key) db))
      as [val err] eqn:Eres.
    cbn [snd] in Hrd. subst err.
    cbn [couchdb.result couchdb.calls fmap list_fmap concat].
    destruct (IH (S i) (<[i:=val]> vals) _ j rd e Hj He Hrds) as [Hres Hcalls].
    by rewrite Hres, Hcalls.
Qed.

(** C8: the reads of a multi-key read are the point reads of the keys, one
  after the other in list order.  When all succeed the results come back
  in the order of the keys; when one fails, the reads stop there and the
  call returns that first error with no result list. *)
Theorem GetStateMultipleKeys_sequential (namespace : string)
  (keys : list string) (db : DB) :
let reads := point_reads namespace keys db in
let r := couchdb.exec (GetStateMultipleKeys namespace keys) db in
(Forall succeeded reads ->
 couchdb.result r = (Some ((fun rd => (couchdb.result rd).1) <$> reads), None)
 /\ couchdb.calls r = concat (couchdb.calls <$> reads))
/\ (forall j rd e,
      reads !! j = Some rd ->
      (couchdb.result rd).2 = Some e ->
      Forall succeeded (take j reads) ->
      couchdb.result r = (None, Some e)
      /\ couchdb.calls r = concat (couchdb.calls <$> take (S j) reads)).
Proof.
intros reads r. subst reads r. unfold GetStateMultipleKeys. split.
- intros Hok.
  apply (GetStateMultipleKeys_loop_ok namespace keys 0); [|done].
  by rewrite length_replicate.
- intros j rd e Hj He Hok.
  by apply (GetStateMultipleKeys_loop_err namespace keys 0 _ db j rd e).
Qed.
End Reads.

(** ** Batched writes and the savepoint *)

Section Writes.
Context `{!Externals} {DB : Type} `{!couchdb.CouchDatabase DB}.

Lemma exec_ApplyUpdates_loop kvs : forall db : DB,
let r := couchdb.exec (ApplyUpdates_loop kvs) db in
Forall2 entry_write (take (length (couchdb.calls r)) kvs) (couchdb.calls r)
/\ match couchdb.result r with
   | None =>
       length (couchdb.calls r) = length kvs
       /\ Forall (fun ev => event_error ev = None) (couchdb.calls r)
   | Some e =>
       exists pre ev,
         couchdb.calls r = pre ++ [ev] /\ event_error ev = Some e
         /\ Forall (fun ev => event_error ev = None) pre
   end.
Proof.
induction kvs as [|[ck vv] kvs IH]; intros db r; subst r.
- cbn. split; [constructor|done].
- cbn [ApplyUpdates_loop].
  set (id := string_of_list_byte
               (constructCompositeKey (statedb.Namespace ck) (statedb.Key ck))).
  assert (Hw : forall b atts res,
    (b, atts) = (if IsJSON (string_of_slice (statedb.Value vv))
                 then (statedb.Value vv, [])
                 else (None, [{| couchdb.AttachmentBytes := statedb.Value vv;
                                 couchdb.ContentType := "application/octet-stream";
                                 couchdb.Name := "valueBytes" |}])) ->
    entry_write (ck, vv) (couchdb.EvSaveDoc id EmptyString b atts res)).
  { intros b atts res E. exists res. unfold entry_id. cbn [fst snd]. fold id.
    destruct (IsJSON _); by injection E as -> ->. }
  destruct (IsJSON (string_of_slice (statedb.Value vv)));
    rewrite exec_bind, exec_SaveDoc;
    cbn [couchdb.result couchdb.final couchdb.calls app];
    match goal with
    | |- context [couchdb.handle_SaveDoc ?i ?rv ?b ?a db] =>
        specialize (Hw b a (couchdb.handle_SaveDoc i rv b a db).1 eq_refl);
        destruct (couchdb.handle_SaveDoc i rv b a db) as [[rev err] db']
    end;
    cbn [fst snd] in *; destruct err as [e|].
  all: cbn [couchdb.exec couchdb.result couchdb.calls app length firstn].
  1,3: split; [constructor; [exact Hw|constructor]|];
       eexists [], _; by repeat split.
  all: destruct (IH db') as [Hcalls Hres]; split; [constructor; [exact Hw|exact Hcalls]|];
       destruct (couchdb.result (couchdb.exec (ApplyUpdates_loop kvs) db')) as [e|].
  1,3: destruct Hres as (pre & ev & -> & Hev & Hpre);
       eexists (_ :: pre), ev; split; [done|]; split; [done|]; by constructor.
  all: destruct Hres as [Hlen Hok]; split; [by rewrite Hlen|by constructor].
Qed.

(** The savepoint protocol, call by call. *)
Lemma exec_recordSavepoint height (db : DB) :
couchdb.exec (recordSavepoint height) db =
let '(c1, db1) := couchdb.handle_EnsureFullCommit db in
if bool_decide (c1.2 <> None) || negb (couchdb.Ok c1.1)
then {| couchdb.result := Some (errors_New "Failed to perform full commit");
        couchdb.final := db1;
        couchdb.calls := [couchdb.EvEnsureFullCommit c1] |}
else
  let '(i, db2) := couchdb.handle_GetDatabaseInfo db1 in
  match i.2 with
  | Some e =>
      {| couchdb.result := Some e; couchdb.final := db2;
         couchdb.calls := [couchdb.EvEnsureFullCommit c1;
                           couchdb.EvGetDatabaseInfo i] |}
  | None =>
      let m := json_Marshal (savepoint_record height (couchdb.UpdateSeq i.1)) in
      match m.2 with
      | Some e =>
          {| couchdb.result := Some e; couchdb.final := db2;
             couchdb.calls := [couchdb.EvEnsureFullCommit c1;
                               couchdb.EvGetDatabaseInfo i] |}
      | None =>
          let '(s, db3) :=
            couchdb.handle_SaveDoc savepointDocID EmptyString m.1 [] db2 in
          match s.2 with
          | Some e =>
              {| couchdb.result := Some e; couchdb.final := db3;
                 couchdb.calls :=
                   [couchdb.EvEnsureFullCommit c1; couchdb.EvGetDatabaseInfo i;
                    couchdb.EvSaveDoc savepointDocID EmptyString m.1 [] s] |}
          | None =>
              let '(c2, db4) := couchdb.handle_EnsureFullCommit db3 in
              {| couchdb.result :=
                   if bool_decide (c2.2 <> None) || negb (couchdb.Ok c2.1)
                   then Some (errors_New "Failed to perform full commit")
                   else None;
                 couchdb.final := db4;
                 couchdb.calls :=
                   [couchdb.EvEnsureFullCommit c1; couchdb.EvGetDatabaseInfo i;
                    couchdb.EvSaveDoc savepointDocID EmptyString m.1 [] s;
                    couchdb.EvEnsureFullCommit c2] |}
          end
      end
  end.
Proof.
unfold recordSavepoint, savepoint_record.
rewrite exec_bind, exec_EnsureFullCommit.
cbn [couchdb.result couchdb.final couchdb.calls].
destruct (couchdb.handle_EnsureFullCommit db) as [[resp1 err1] db1].
cbn [fst snd].
destruct (bool_decide (err1 <> None) || negb (couchdb.Ok resp1)); [done|].
rewrite exec_bind, exec_GetDatabaseInfo.
cbn [couchdb.result couchdb.final couchdb.calls].
destruct (couchdb.handle_GetDatabaseInfo db1) as [[info erri] db2].
cbn [fst snd]. destruct erri as [e|]; [done|].
destruct (json_Marshal _) as [text errm]. cbn [fst snd].
destruct errm as [e|]; [done|].
rewrite exec_bind, exec_SaveDoc.
cbn [couchdb.result couchdb.final couchdb.calls].
destruct (couchdb.handle_SaveDoc savepointDocID EmptyString text [] db2)
  as [[rev errs] db3].
cbn [fst snd]. destruct errs as [e|]; [done|].
rewrite exec_bind, exec_EnsureFullCommit.
cbn [couchdb.result couchdb.final couchdb.calls].
destruct (couchdb.handle_EnsureFullCommit db3) as [[resp2 err2] db4].
cbn [fst snd].
by destruct (bool_decide (err2 <> None) || negb (couchdb.Ok resp2)).
Qed.

Lemma commit_failed_test (r : couchdb.CommitResult) :
bool_decide (r.2 <> None) || negb (couchdb.Ok r.1) = bool_decide (commit_failed r).
Proof.
destruct (decide (commit_failed r)) as [Hf|Hf].
- rewrite (bool_decide_eq_true_2 _ Hf). destruct Hf as [Hf|Hf].
  + by rewrite bool_decide_eq_true_2.
  + destruct (couchdb.Ok r.1); [done|]. by rewrite orb_true_r.
- rewrite (bool_decide_eq_false_2 _ Hf). apply orb_false_intro.
  + apply bool_decide_eq_false_2. intros ?. apply Hf. by left.
  + destruct (couchdb.Ok r.1) eqn:E; [done|].
    exfalso. apply Hf. right. by rewrite E.
Qed.

Lemma exec_ApplyUpdates batch height (db : DB) :
let l := couchdb.exec (ApplyUpdates_loop (rangeKVs (statedb.KVs batch))) db in
let s := couchdb.exec (recordSavepoint height) (couchdb.final l) in
couchdb.exec (ApplyUpdates batch height) db =
match couchdb.result l with
| Some e => l
| None =>
    {| couchdb.result := couchdb.result s;
       couchdb.final := couchdb.final s;
       couchdb.calls := couchdb.calls l ++ couchdb.calls s |}
end.
Proof.
intros l s. subst l s. unfold ApplyUpdates. rewrite exec_bind.
destruct (couchdb.exec (ApplyUpdates_loop _) db) as [[e|] dbl cl];
  cbn [couchdb.result couchdb.final couchdb.calls].
- cbn. by rewrite app_nil_r.
- rewrite exec_bind.
  destruct (couchdb.exec (recordSavepoint height) dbl) as [[e|] dbs cs];
    cbn; by rewrite app_nil_r.
Qed.
Lemma recordSavepoint_success height (db : DB) :
let r := couchdb.exec (recordSavepoint height) db in
couchdb.result r = None ->
exists c1 info text s c2,
  couchdb.calls r =
    [couchdb.EvEnsureFullCommit c1;
     couchdb.EvGetDatabaseInfo (info, None);
     couchdb.EvSaveDoc savepointDocID EmptyString text [] s;
     couchdb.EvEnsureFullCommit c2]
  /\ ~ commit_failed c1 /\ ~ commit_failed c2 /\ s.2 = None
  /\ json_Marshal (savepoint_record height (couchdb.UpdateSeq info))
     = (text, None).
Proof.
intros r. subst r. rewrite exec_recordSavepoint.
destruct (couchdb.handle_EnsureFullCommit db) as [c1 db1].
rewrite commit_failed_test. case_bool_decide as Hc1; [done|].
destruct (couchdb.handle_GetDatabaseInfo db1) as [[info erri] db2].
cbn [fst snd]. destruct erri as [e|]; [done|].
destruct (json_Marshal _) as [text errm] eqn:Em. cbn [fst snd].
destruct errm as [e|]; [done|].
destruct (couchdb.handle_SaveDoc _ _ _ _ db2) as [[rev errs] db3].
cbn [fst snd]. destruct errs as [e|]; [done|].
destruct (couchdb.handle_EnsureFullCommit db3) as [c2 db4].
rewrite commit_failed_test. cbn [couchdb.result couchdb.calls].
case_bool_decide as Hc2; [done|]. intros _.
by exists c1, info, text, (rev, None), c2.
Qed.

Lemma recordSavepoint_blind height (db : DB) :
Forall blind (couchdb.calls (couchdb.exec (recordSavepoint height) db)).
Proof.
rewrite exec_recordSavepoint.
destruct (couchdb.handle_EnsureFullCommit db) as [c1 db1].
destruct (_ || _); [by repeat constructor|].
destruct (couchdb.handle_GetDatabaseInfo db1) as [[info [e|]] db2];
  cbn [fst snd]; [by repeat constructor|].
destruct (json_Marshal _) as [text [e|]]; cbn [fst snd];
  [by repeat constructor|].
destruct (couchdb.handle_SaveDoc _ _ _ _ db2) as [[rev [e|]] db3];
  cbn [fst snd]; [by repeat constructor|].
destruct (couchdb.handle_EnsureFullCommit db3) as [c2 db4].
by repeat constructor.
Qed.

Lemma entry_write_blind kv ev : entry_write kv ev -> blind ev.
Proof. intros [res ->]. by destruct (IsJSON _). Qed.

(** C7: the i-th call of a batched write is the write of the i-th entry
  visited: a save under the entry's encoded key whose body is the value
  when the value is JSON, and that otherwise carries the value as the
  one attachment valueBytes of type application/octet-stream.  No call
  of the whole operation reads a document or names a revision, so every
  write overwrites blindly; and on success every entry has its call. *)
Theorem ApplyUpdates_entry_write (batch : statedb.UpdateBatch)
  (height : version.Height) (db : DB) :
let r := couchdb.exec (ApplyUpdates batch height) db in
let kvs := rangeKVs (statedb.KVs batch) in
(forall i kv ev,
   kvs !! i = Some kv -> couchdb.calls r !! i = Some ev -> entry_write kv ev)
/\ Forall blind (couchdb.calls r)
/\ (couchdb.result r = None ->
    forall i kv, kvs !! i = Some kv -> is_Some (couchdb.calls r !! i)).
Proof.
intros r kvs. subst r. rewrite exec_ApplyUpdates. fold kvs.
destruct (exec_ApplyUpdates_loop kvs db) as [Hw Hl].
set (l := couchdb.exec (ApplyUpdates_loop kvs) db) in *.
assert (Hlb : Forall blind (couchdb.calls l)).
{ apply Forall_forall. intros ev Hev.
  apply list_elem_of_lookup in Hev as [i Hi].
  destruct (Forall2_lookup_r _ _ _ _ _ Hw Hi) as (kv & _ & Hkv).
  by apply (entry_write_blind kv). }
assert (Hith : forall i kv ev,
  kvs !! i = Some kv -> couchdb.calls l !! i = Some ev -> entry_write kv ev).
{ intros i kv ev Hkv Hev.
  destruct (Forall2_lookup_r _ _ _ _ _ Hw Hev) as (kv' & Hkv' & Hwr).
  apply lookup_take_Some in Hkv' as [Hkv' _]. congruence. }
destruct (couchdb.result l) as [e|] eqn:El.
- split; [done|]. split; [done|]. congruence.
- destruct Hl as [Hlen Hok]. cbn [couchdb.result couchdb.calls].
  split; [|split].
  + intros i kv ev Hkv Hev. apply (Hith i kv ev Hkv).
    rewrite lookup_app_l in Hev; [done|].
    rewrite Hlen. by apply lookup_lt_Some in Hkv.
  + apply Forall_app. split; [done|]. apply recordSavepoint_blind.
  + intros _ i kv Hkv. apply lookup_lt_is_Some.
    rewrite length_app, Hlen. apply lookup_lt_Some in Hkv. lia.
Qed.

(** C1: a batched write that succeeds has made exactly these calls, in
  this order: first the write of every entry of the batch, each
  succeeding, and only then the flush, the read of the change-sequence
  marker, the save of the savepoint record of the height and that
  marker under the savepoint identifier, and the second flush. *)
Theorem ApplyUpdates_order `{!ExternalsLaws} (batch : statedb.UpdateBatch)
  (height : version.Height) (db : DB) :
let r := couchdb.exec (ApplyUpdates batch height) db in
couchdb.result r = None ->
exists writes c1 info text s c2,
  couchdb.calls r =
    writes ++ [couchdb.EvEnsureFullCommit c1;
               couchdb.EvGetDatabaseInfo (info, None);
               couchdb.EvSaveDoc savepointDocID EmptyString text [] s;
               couchdb.EvEnsureFullCommit c2]
  /\ Forall2 entry_write (rangeKVs (statedb.KVs batch)) writes
  /\ Forall (fun ev => event_error ev = None) writes
  /\ (forall ck vv,
        statedb.KVs batch !! ck = Some vv ->
        exists ev, ev ∈ writes /\ entry_write (ck, vv) ev)
  /\ ~ commit_failed c1 /\ ~ commit_failed c2 /\ s.2 = None
  /\ json_Marshal (savepoint_record height (couchdb.UpdateSeq info))
     = (text, None).
Proof.
intros r. subst r. rewrite exec_ApplyUpdates.
set (kvs := rangeKVs (statedb.KVs batch)).
destruct (exec_ApplyUpdates_loop kvs db) as [Hw Hl].
set (l := couchdb.exec (ApplyUpdates_loop kvs) db) in *.
destruct (couchdb.result l) as [e|] eqn:El; [congruence|].
destruct Hl as [Hlen Hok]. cbn [couchdb.result couchdb.calls]. intros Hs.
destruct (recordSavepoint_success height (couchdb.final l) Hs)
  as (c1 & info & text & s & c2 & -> & Hc1 & Hc2 & Hsave & Hm).
rewrite Hlen, firstn_all in Hw.
exists (couchdb.calls l), c1, info, text, s, c2.
repeat (split; [done|]). split; [|done].
intros ck vv Hin.
assert (Hel : (ck, vv) ∈ kvs).
{ unfold kvs. rewrite rangeKVs_Permutation. by apply elem_of_map_to_list. }
apply list_elem_of_lookup in Hel as [i Hi].
destruct (Forall2_lookup_l _ _ _ _ _ Hw Hi) as (ev & Hev & Hwr).
exists ev. split; [|done]. by apply list_elem_of_lookup_2 in Hev.
Qed.
End Writes.

(** ** The savepoint on a lawful store *)

Lemma commits_of_app evs1 evs2 :
  commits_of (evs1 ++ evs2) = commits_of evs1 ++ commits_of evs2.
Proof.
  induction evs1 as [|ev evs1 IH]; [done|].
  destruct ev; cbn [app commits_of]; by rewrite ?IH.
Qed.

Lemma commits_of_writes `{!Externals} kvs evs :
  Forall2 entry_write kvs evs -> commits_of evs = [].
Proof.
  induction 1 as [|kv ev kvs evs [res ->] _ IH]; [done|].
  by destruct (IsJSON _).
Qed.

(** No encoded key is the savepoint identifier: it holds the separator
    byte, which the identifier does not. *)
Lemma entry_id_savepointDocID kv : entry_id kv <> savepointDocID.
Proof.
  unfold entry_id. intros E.
  apply (f_equal list_byte_of_string) in E.
  rewrite list_byte_of_string_of_list_byte, constructCompositeKey_unfold in E.
  assert (Hin : x00 ∈ list_byte_of_string savepointDocID).
  { rewrite <- E. apply elem_of_app. right. left. }
  assert (Hnot : x00 ∉ list_byte_of_string savepointDocID)
    by (by apply (bool_decide_unpack _)).
  done.
Qed.

Section Savepoint.
Context `{!Externals} `{!ExternalsLaws}.
Context {DB : Type} `{!couchdb.CouchDatabase DB} `{!store.Lawful DB}.

Lemma ApplyUpdates_loop_savepoint kvs : forall db : DB,
store.docs_of (couchdb.final (couchdb.exec (ApplyUpdates_loop kvs) db))
  !! savepointDocID
= store.docs_of db !! savepointDocID.
Proof.
induction kvs as [|[ck vv] kvs IH]; intros db; [done|].
cbn [ApplyUpdates_loop].
pose proof (entry_id_savepointDocID (ck, vv)) as Hid.
unfold entry_id in Hid. cbn [fst] in Hid.
destruct (IsJSON _); rewrite exec_bind, exec_SaveDoc;
  cbn [couchdb.result couchdb.final];
  match goal with
  | |- context [couchdb.handle_SaveDoc ?i ?rv ?b ?a db] =>
      pose proof (store.SaveDoc_others i rv b a db savepointDocID
                    (not_eq_sym Hid)) as Ho;
      destruct (couchdb.handle_SaveDoc i rv b a db) as [[rev [e|]] db']
  end; cbn [fst snd] in *; try done; by rewrite IH.
Qed.

(** What the savepoint protocol leaves in the store, by the outcome of
  its flushes. *)
Lemma recordSavepoint_docs height (db : DB) :
let r := couchdb.exec (recordSavepoint height) db in
(forall c, c ∈ commits_of (couchdb.calls r) -> commit_failed c ->
   couchdb.result r = Some (errors_New "Failed to perform full commit"))
/\ (forall c rest, commits_of (couchdb.calls r) = c :: rest -> commit_failed c ->
      store.docs_of (couchdb.final r) = store.docs_of db)
/\ (couchdb.result r = None \/
      (exists c1 c2 rest, commits_of (couchdb.calls r) = c1 :: c2 :: rest) ->
    exists info text,
      json_Marshal (savepoint_record height (couchdb.UpdateSeq info))
      = (text, None)
      /\ store.docs_of (couchdb.final r)
         = <[savepointDocID := {| store.body := text; store.attachments := [] |}]>
             (store.docs_of db)).
Proof.
intros r. subst r. rewrite exec_recordSavepoint.
pose proof (store.EnsureFullCommit_docs db) as Hd1.
destruct (couchdb.handle_EnsureFullCommit db) as [c1 db1]. cbn [snd] in Hd1.
rewrite commit_failed_test. case_bool_decide as Hc1.
{ cbn [couchdb.result couchdb.final couchdb.calls commits_of].
  split; [done|]. split; [done|].
  intros [?|(? & ? & ? & ?)]; done. }
pose proof (store.GetDatabaseInfo_docs db1) as Hd2.
destruct (couchdb.handle_GetDatabaseInfo db1) as [[info erri] db2].
cbn [fst snd] in *. destruct erri as [e|].
{ cbn [couchdb.result couchdb.final couchdb.calls commits_of].
  split; [by intros c ->%list_elem_of_singleton|].
  split; [by intros c rest [= <- <-]|].
  intros [?|(? & ? & ? & ?)]; done. }
destruct (json_Marshal _) as [text errm] eqn:Em. cbn [fst snd].
destruct errm as [e|].
{ cbn [couchdb.result couchdb.final couchdb.calls commits_of].
  split; [by intros c ->%list_elem_of_singleton|].
  split; [by intros c rest [= <- <-]|].
  intros [?|(? & ? & ? & ?)]; done. }
pose proof (store.SaveDoc_docs savepointDocID EmptyString text [] db2) as Hd3.
destruct (couchdb.handle_SaveDoc _ _ _ _ db2) as [[rev errs] db3].
cbn [fst snd] in *. destruct errs as [e|].
{ cbn [couchdb.result couchdb.final couchdb.calls commits_of].
  split; [by intros c ->%list_elem_of_singleton|].
  split; [by intros c rest [= <- <-]|].
  intros [?|(? & ? & ? & ?)]; done. }
pose proof (store.EnsureFullCommit_docs db3) as Hd4.
destruct (couchdb.handle_EnsureFullCommit db3) as [c2 db4]. cbn [snd] in Hd4.
rewrite commit_failed_test.
cbn [couchdb.result couchdb.final couchdb.calls commits_of].
split; [|split].
- intros c Hc Hf. apply elem_of_cons in Hc as [->|Hc]; [done|].
  apply list_elem_of_singleton in Hc as ->. by rewrite bool_decide_eq_true_2.
- by intros c rest [= <- <-].
- intros _. exists info, text. split; [done|].
  by rewrite Hd4, Hd3, Hd2, Hd1.
Qed.

Lemma exec_GetLatestSavePoint (db : DB) :
let read := (couchdb.handle_ReadDoc savepointDocID db).1 in
couchdb.result (couchdb.exec GetLatestSavePoint db) =
match read.2, read.1.1 with
| Some e, _ => ({| version.BlockNum := 0; version.TxNum := 0 |}, Some e)
| None, None => ({| version.BlockNum := 0; version.TxNum := 0 |}, None)
| None, Some text =>
    match (json_Unmarshal text).2 with
    | Some e => ({| version.BlockNum := 0; version.TxNum := 0 |}, Some e)
    | None =>
        ({| version.BlockNum := BlockNum (json_Unmarshal text).1;
            version.TxNum := TxNum (json_Unmarshal text).1 |}, None)
    end
end.
Proof.
intros read. subst read. unfold GetLatestSavePoint.
rewrite exec_bind, exec_ReadDoc. cbn [couchdb.result couchdb.final].
destruct (couchdb.handle_ReadDoc savepointDocID db)
  as [[[docBytes rev] [e|]] db']; cbn [fst snd]; [done|].
destruct docBytes as [text|]; [|done].
by destruct (json_Unmarshal text) as [d [e|]].
Qed.

(** C2: on a lawful store, after a batched write at a height has
  succeeded, the latest savepoint read back (the read itself meeting no
  store error) is exactly that height, with no error; with no savepoint
  document in the store it is height (0,0) with no error; and with a
  stored payload that does not decode it is height (0,0) together with
  the decode error. *)
Theorem GetLatestSavePoint_after_ApplyUpdates (batch : statedb.UpdateBatch)
  (height : version.Height) (db : DB) :
(let r := couchdb.exec (ApplyUpdates batch height) db in
 couchdb.result r = None ->
 (couchdb.handle_ReadDoc savepointDocID (couchdb.final r)).1.2 = None ->
 couchdb.result (couchdb.exec GetLatestSavePoint (couchdb.final r))
 = (height, None))
/\ (store.docs_of db !! savepointDocID = None ->
    (couchdb.handle_ReadDoc savepointDocID db).1.2 = None ->
    couchdb.result (couchdb.exec GetLatestSavePoint db)
    = ({| version.BlockNum := 0; version.TxNum := 0 |}, None))
/\ (forall doc text d e,
      store.docs_of db !! savepointDocID = Some doc ->
      store.doc_value doc = Some text ->
      json_Unmarshal text = (d, Some e) ->
      (couchdb.handle_ReadDoc savepointDocID db).1.2 = None ->
      couchdb.result (couchdb.exec GetLatestSavePoint db)
      = ({| version.BlockNum := 0; version.TxNum := 0 |}, Some e)).
Proof.
split; [|split].
- intros r Hres Hread. subst r. rewrite exec_GetLatestSavePoint.
  rewrite Hread, (store.ReadDoc_value _ _ Hread).
  rewrite exec_ApplyUpdates in Hres |- *.
  destruct (couchdb.result (couchdb.exec (ApplyUpdates_loop _) db))
    as [e|] eqn:El; [congruence|].
  cbn [couchdb.result couchdb.final] in *.
  destruct (recordSavepoint_docs height
              (couchdb.final (couchdb.exec
                 (ApplyUpdates_loop (rangeKVs (statedb.KVs batch))) db)))
    as (_ & _ & Hdocs).
  destruct (Hdocs (or_introl Hres)) as (info & text & Hm & ->).
  rewrite lookup_insert_eq. cbn [mbind option_bind store.doc_value
                                store.attachments store.body].
  destruct (json_Marshal_Unmarshal _ _ Hm) as (t & d' & -> & Hu & Hb & Ht).
  rewrite Hu. cbn [fst snd]. rewrite Hb, Ht. cbn [savepoint_record BlockNum TxNum].
  by destruct height.
- intros Hno Hread. rewrite exec_GetLatestSavePoint.
  by rewrite Hread, (store.ReadDoc_value _ _ Hread), Hno.
- intros doc text d e Hdoc Hval Hu Hread. rewrite exec_GetLatestSavePoint.
  rewrite Hread, (store.ReadDoc_value _ _ Hread), Hdoc.
  cbn [mbind option_bind]. by rewrite Hval, Hu.
Qed.

(** C3, as the code has it: on a lawful store, a failed flush makes the
  batched write return the full-commit error.  When it is the first
  flush that fails, the savepoint document is what it was before the
  call.  When it is the second, the savepoint document has already been
  replaced by the record of the new height; nothing restores it. *)
Theorem ApplyUpdates_flush_failure (batch : statedb.UpdateBatch)
  (height : version.Height) (db : DB) :
let r := couchdb.exec (ApplyUpdates batch height) db in
(forall c, c ∈ commits_of (couchdb.calls r) -> commit_failed c ->
   couchdb.result r = Some (errors_New "Failed to perform full commit"))
/\ (forall c rest,
      commits_of (couchdb.calls r) = c :: rest -> commit_failed c ->
      store.docs_of (couchdb.final r) !! savepointDocID
      = store.docs_of db !! savepointDocID)
/\ (forall c1 c2 rest,
      commits_of (couchdb.calls r) = c1 :: c2 :: rest -> commit_failed c2 ->
      exists info text,
        json_Marshal (savepoint_record height (couchdb.UpdateSeq info))
        = (text, None)
        /\ store.docs_of (couchdb.final r) !! savepointDocID
           = Some {| store.body := text; store.attachments := [] |}).
Proof.
intros r. subst r. rewrite exec_ApplyUpdates.
set (kvs := rangeKVs (statedb.KVs batch)).
destruct (exec_ApplyUpdates_loop kvs db) as [Hw _].
pose proof (commits_of_writes _ _ Hw) as Hnone.
pose proof (ApplyUpdates_loop_savepoint kvs db) as Hsp.
set (l := couchdb.exec (ApplyUpdates_loop kvs) db) in *.
destruct (couchdb.result l) as [e|].
- rewrite Hnone. split; [by intros c ?%elem_of_nil|]. by split.
- cbn [couchdb.result couchdb.final couchdb.calls].
  rewrite commits_of_app, Hnone. cbn [app].
  destruct (recordSavepoint_docs height (couchdb.final l)) as (Ha & Hb & Hc).
  split; [done|]. split.
  + intros c rest Hcs Hf. by rewrite (Hb c rest Hcs Hf).
  + intros c1 c2 rest Hcs _.
    destruct Hc as (info & text & Hm & ->); [right; eauto|].
    exists info, text. split; [done|]. by rewrite lookup_insert_eq.
Qed.
End Savepoint.

(** ** The scanners *)

Lemma int_wrap_in_range z :
  (- 2 ^ (intSize - 1) <= z <= maxInt)%Z -> int_wrap z = z.
Proof.
  unfold int_wrap, maxInt, intSize. intros Hz.
  rewrite Z.mod_small; lia.
Qed.

Lemma slice_index_lookup {A} (s : list A) (i : nat) :
  slice_index s (Z.of_nat i)
  = match s !! i with
    | Some x => Returned x
    | None => Panicked "index out of range"
    end.
Proof.
  unfold slice_index. destruct (Z.ltb_spec (Z.of_nat i) 0); [lia|].
  by rewrite Nat2Z.id.
Qed.

(** An identifier that holds the separator splits at its first one. *)
Lemma splitCompositeKey_hasSep (id : string) :
  hasSep id ->
  exists ns key,
    splitCompositeKey (list_byte_of_string id) = Returned (ns, key)
    /\ list_byte_of_string id = constructCompositeKey ns key
    /\ ~ hasSep ns.
Proof.
  intros Hsep. apply list_elem_of_split_l in Hsep as (n & rest & E & Hn).
  exists (string_of_list_byte n), (string_of_list_byte rest).
  unfold splitCompositeKey. rewrite E, bytes_SplitN_sep_fresh by done.
  split; [done|].
  rewrite constructCompositeKey_unfold, !list_byte_of_string_of_list_byte.
  split; [done|]. unfold hasSep. by rewrite list_byte_of_string_of_list_byte.
Qed.

Lemma kvScanner_Next_state (scanner : kvScanner.t) :
  (kvScanner_Next scanner).2
  = {| kvScanner.cursor := int_wrap (kvScanner.cursor scanner + 1);
       kvScanner.namespace := kvScanner.namespace scanner;
       kvScanner.results := kvScanner.results scanner |}.
Proof.
  unfold kvScanner_Next. cbn [kvScanner.cursor kvScanner.results].
  destruct (_ >=? _)%Z; [done|].
  destruct (slice_index _ _) as [q|]; [|done].
  by destruct (splitCompositeKey _) as [[? ?]|].
Qed.

Lemma queryScanner_Next_state (scanner : queryScanner.t) :
  (queryScanner_Next scanner).2
  = {| queryScanner.cursor := int_wrap (queryScanner.cursor scanner + 1);
       queryScanner.results := queryScanner.results scanner |}.
Proof.
  unfold queryScanner_Next. cbn [queryScanner.cursor queryScanner.results].
  destruct (_ >=? _)%Z; [done|].
  destruct (slice_index _ _) as [q|]; [|done].
  by destruct (splitCompositeKey _) as [[? ?]|].
Qed.

Lemma kvScanner_after_state namespace results (n : nat) :
  (Z.of_nat n <= maxInt + 1)%Z ->
  kvScanner_after n (newKVScanner namespace results)
  = {| kvScanner.cursor := Z.of_nat n - 1;
       kvScanner.namespace := namespace;
       kvScanner.results := results |}.
Proof.
  induction n as [|n IH]; intros Hn; [done|].
  change (kvScanner_after (S n) (newKVScanner namespace results))
    with (kvScanner_Next (kvScanner_after n (newKVScanner namespace results))).2.
  rewrite IH by lia. rewrite kvScanner_Next_state.
  cbn [kvScanner.cursor kvScanner.namespace kvScanner.results].
  rewrite int_wrap_in_range; [f_equal; lia|].
  unfold maxInt, intSize in *. lia.
Qed.

Lemma queryScanner_after_state results (n : nat) :
  (Z.of_nat n <= maxInt + 1)%Z ->
  queryScanner_after n (newQueryScanner results)
  = {| queryScanner.cursor := Z.of_nat n - 1;
       queryScanner.results := results |}.
Proof.
  induction n as [|n IH]; intros Hn; [done|].
  change (queryScanner_after (S n) (newQueryScanner results))
    with (queryScanner_Next (queryScanner_after n (newQueryScanner results))).2.
  rewrite IH by lia. rewrite queryScanner_Next_state.
  cbn [queryScanner.cursor queryScanner.results].
  rewrite int_wrap_in_range; [f_equal; lia|].
  unfold maxInt, intSize in *. lia.
Qed.

(** C9, as the code has it: over pre-fetched results whose identifiers
    all hold the separator byte, and for as many calls as the cursor (an
    int) can count, the i-th call of [Next] moves the cursor from i-2 to
    i-1 and returns the i-th result decoded, split at the first separator
    of its identifier, for i up to the number of results, and the
    end-of-sequence value with no error for every later i.  This holds
    for both scanners. *)
Theorem scanners_Next_sequence (namespace : string)
    (results : list couchdb.QueryResult) (i : nat) :
  Forall (fun q => hasSep (couchdb.ID q)) results ->
  (1 <= i)%nat ->
  (Z.of_nat i <= maxInt + 1)%Z ->
  let kv := kvScanner_after (i - 1) (newKVScanner namespace results) in
  let qs := queryScanner_after (i - 1) (newQueryScanner results) in
  kvScanner.cursor kv = (Z.of_nat i - 2)%Z
  /\ queryScanner.cursor qs = (Z.of_nat i - 2)%Z
  /\ kvScanner.cursor (kvScanner_Next kv).2 = (Z.of_nat i - 1)%Z
  /\ queryScanner.cursor (queryScanner_Next qs).2 = (Z.of_nat i - 1)%Z
  /\ match results !! (i - 1)%nat with
     | Some q =>
         exists ns key,
           splitCompositeKey (list_byte_of_string (couchdb.ID q))
           = Returned (ns, key)
           /\ (kvScanner_Next kv).1
              = Returned
                  (Some {| statedb.CK := {| statedb.Namespace := namespace;
                                            statedb.Key := key |};
                           statedb.VV :=
                             {| statedb.Value := couchdb.Value q;
                                statedb.Version := version.NewHeight 1 1 |} |},
                   None)
           /\ (queryScanner_Next qs).1
              = Returned
                  (Some {| statedb.QNamespace := ns;
                           statedb.QKey := key;
                           statedb.QVersion := version.NewHeight 1 1;
                           statedb.Record_ := couchdb.Value q |},
                   None)
     | None =>
         (kvScanner_Next kv).1 = Returned (None, None)
         /\ (queryScanner_Next qs).1 = Returned (None, None)
     end.
Proof.
  intros Hsep Hi Hmax kv qs. subst kv qs.
  rewrite kvScanner_after_state, queryScanner_after_state by lia.
  rewrite kvScanner_Next_state, queryScanner_Next_state.
  cbn [kvScanner.cursor queryScanner.cursor].
  assert (Hw : int_wrap (Z.of_nat (i - 1) - 1 + 1) = Z.of_nat (i - 1)).
  { rewrite int_wrap_in_range; [lia|]. unfold maxInt, intSize in *. lia. }
  rewrite Hw.
  split; [lia|]. split; [lia|]. split; [lia|]. split; [lia|].
  unfold kvScanner_Next, queryScanner_Next.
  cbn [kvScanner.cursor kvScanner.results kvScanner.namespace
       queryScanner.cursor queryScanner.results].
  rewrite Hw, !slice_index_lookup.
  destruct (results !! (i - 1)%nat) as [q|] eqn:Eq.
  - apply lookup_lt_Some in Eq as Hlt.
    destruct (Z.geb_spec (Z.of_nat (i - 1)) (Z.of_nat (length results)));
      [lia|].
    assert (Hq : hasSep (couchdb.ID q)).
    { rewrite Forall_forall in Hsep. apply Hsep.
      by apply list_elem_of_lookup_2 in Eq. }
    destruct (splitCompositeKey_hasSep _ Hq) as (ns & key & -> & _ & _).
    by exists ns, key.
  - apply lookup_ge_None in Eq.
    destruct (Z.geb_spec (Z.of_nat (i - 1)) (Z.of_nat (length results)));
      [done|lia].
Qed.

(** ** Range scans *)

Lemma byte_compare_x01 b : byte_compare b x01 = Lt <-> b = x00.
Proof.
  unfold byte_compare. rewrite N.compare_lt_iff.
  change (Byte.to_N x01) with 1%N. split.
  - intros Hlt. apply byte_to_N_inj. change (Byte.to_N x00) with 0%N. lia.
  - intros ->. change (Byte.to_N x00) with 0%N. lia.
Qed.

(** The byte strings from [n ++ 0x00 :: k1] up to, and not including,
    [n ++ [0x01]] are those that start with [n ++ [0x00]] and go on with
    some [k] at or after [k1]. *)
Lemma bytes_range_prefix (n k1 x : bytes) :
  bytes_le (n ++ x00 :: k1) x /\ bytes_lt x (n ++ [x01])
  <-> exists k, x = n ++ x00 :: k /\ bytes_le k1 k.
Proof.
  unfold bytes_le, bytes_lt. revert x.
  induction n as [|a n IH]; intros [|b x]; cbn [app bytes_Compare].
  - split; [by intros [? _]|by intros (k & ? & _)].
  - split.
    + intros [Hlo Hhi]. destruct (byte_compare b x01) eqn:E; try done.
      * by destruct x.
      * apply byte_compare_x01 in E as ->.
        rewrite byte_compare_refl in Hlo. by exists x.
    + intros (k & [= -> ->] & Hk). rewrite byte_compare_refl.
      split; [done|]. by rewrite (proj2 (byte_compare_x01 x00) eq_refl).
  - split; [by intros [? _]|by intros (k & ? & _)].
  - rewrite (byte_compare_antisym a b). split.
    + intros [Hlo Hhi]. destruct (byte_compare a b) eqn:E; cbn in Hhi; try done.
      apply byte_compare_eq in E as ->.
      destruct (proj1 (IH x) (conj Hlo Hhi)) as (k & -> & Hk). by exists k.
    + intros (k & [= -> ->] & Hk). rewrite byte_compare_refl. cbn.
      apply IH. by exists k.
Qed.

(** Rewriting the last byte of the encoded end bound of an empty end key
    puts the sentinel in the place of the trailing separator. *)
Lemma compositeEndKey_rewrite ns :
  <[(length (constructCompositeKey ns EmptyString) - 1)%nat := lastKeyIndicator]>
    (constructCompositeKey ns EmptyString)
  = list_byte_of_string ns ++ [lastKeyIndicator].
Proof.
  rewrite constructCompositeKey_unfold.
  change (list_byte_of_string EmptyString) with (@nil byte).
  rewrite length_app. cbn [length].
  replace (length (list_byte_of_string ns) + 1 - 1)%nat
    with (length (list_byte_of_string ns) + 0)%nat by lia.
  by rewrite insert_app_r.
Qed.

Lemma string_le_of_bytes (a : bytes) (id : string) :
  string_le (string_of_list_byte a) id <-> bytes_le a (list_byte_of_string id).
Proof.
  unfold string_le, string_Compare. by rewrite list_byte_of_string_of_list_byte.
Qed.

Lemma string_lt_of_bytes (id : string) (a : bytes) :
  string_lt id (string_of_list_byte a) <-> bytes_lt (list_byte_of_string id) a.
Proof.
  unfold string_lt, string_Compare. by rewrite list_byte_of_string_of_list_byte.
Qed.

(** The identifiers in the range of an open-ended scan are the encoded
    keys of the namespace whose key is at or after the start key. *)
Lemma in_range_open_ended ns k1 id :
  store.in_range
    (string_of_list_byte (constructCompositeKey ns k1))
    (string_of_list_byte (list_byte_of_string ns ++ [lastKeyIndicator])) id
  <-> exists k,
        id = string_of_list_byte (constructCompositeKey ns k) /\ string_le k1 k.
Proof.
  unfold store.in_range.
  rewrite string_le_of_bytes, string_lt_of_bytes, constructCompositeKey_unfold.
  unfold lastKeyIndicator. rewrite bytes_range_prefix. split.
  - intros (kb & E & Hk). exists (string_of_list_byte kb). split.
    + rewrite constructCompositeKey_unfold, list_byte_of_string_of_list_byte.
      by rewrite <- E, string_of_list_byte_of_string.
    + unfold string_le, string_Compare.
      by rewrite list_byte_of_string_of_list_byte.
  - intros (k & -> & Hk). exists (list_byte_of_string k). split; [|done].
    by rewrite list_byte_of_string_of_list_byte, constructCompositeKey_unfold.
Qed.

Lemma elem_of_docs_in_range s e (m : gmap string store.Doc) q :
  q ∈ store.docs_in_range s e m
  <-> exists id d,
        q = store.to_result (id, d) /\ m !! id = Some d /\ store.in_range s e id.
Proof.
  unfold store.docs_in_range.
  rewrite list_elem_of_fmap. setoid_rewrite merge_sort_Permutation.
  setoid_rewrite list_elem_of_filter. split.
  - intros ([id d] & -> & Hr & Hin%elem_of_map_to_list). by exists id, d.
  - intros (id & d & -> & Hd & Hr). exists (id, d).
    split; [done|]. split; [done|]. by apply elem_of_map_to_list.
Qed.

(** Encoded keys of separator-free namespaces are equal only for equal
    namespaces and keys. *)
Lemma constructCompositeKey_inj ns1 k1 ns2 k2 :
  ~ hasSep ns1 -> ~ hasSep ns2 ->
  constructCompositeKey ns1 k1 = constructCompositeKey ns2 k2 ->
  ns1 = ns2 /\ k1 = k2.
Proof.
  intros H1 H2 E.
  pose proof (splitCompositeKey_encoded ns1 k1 H1) as E1.
  pose proof (splitCompositeKey_encoded ns2 k2 H2) as E2.
  rewrite E, E2 in E1. by injection E1 as -> ->.
Qed.

Section RangeScan.
Context {DB : Type} `{!couchdb.CouchDatabase DB} `{!store.Lawful DB}.

(** C5: a range scan with an empty end key asks the store for the range
  from the encoded start key to the namespace followed by the sentinel
  byte 0x01, which is the encoded end bound with its trailing separator
  rewritten, with limit 1000 and skip 0.  On a lawful store, for a
  namespace free of the separator, the documents in that range are
  exactly the stored keys of the namespace at or after the start key,
  no key of another namespace among them; the scan returns the first
  1000 of them in identifier order, all of them when there are no more
  than 1000, and each decodes to the namespace and its key. *)
Theorem GetStateRangeScanIterator_open_ended (ns k1 : string) (db : DB) :
~ hasSep ns ->
let startKey := string_of_list_byte (constructCompositeKey ns k1) in
let endKey :=
  string_of_list_byte (list_byte_of_string ns ++ [lastKeyIndicator]) in
let r := couchdb.exec (GetStateRangeScanIterator ns k1 EmptyString) db in
let found := store.docs_in_range startKey endKey (store.docs_of db) in
<[(length (constructCompositeKey ns EmptyString) - 1)%nat := lastKeyIndicator]>
  (constructCompositeKey ns EmptyString)
= list_byte_of_string ns ++ [lastKeyIndicator]
/\ (exists res,
      couchdb.calls r = [couchdb.EvReadDocRange startKey endKey 1000 0 res]
      /\ (res.2 = None ->
          couchdb.result r = (Some (newKVScanner ns (take 1000 found)), None))
      /\ (forall e, res.2 = Some e -> couchdb.result r = (None, Some e)))
/\ (forall id,
      id ∈ couchdb.ID <$> found
      <-> exists k,
            id = string_of_list_byte (constructCompositeKey ns k)
            /\ string_le k1 k /\ is_Some (store.docs_of db !! id))
/\ (forall ns' k',
      ns' <> ns -> ~ hasSep ns' ->
      string_of_list_byte (constructCompositeKey ns' k') ∉ couchdb.ID <$> found)
/\ (forall q,
      q ∈ found ->
      exists k,
        splitCompositeKey (list_byte_of_string (couchdb.ID q)) = Returned (ns, k)
        /\ string_le k1 k
        /\ store.docs_of db !! couchdb.ID q ≫= store.doc_value = couchdb.Value q)
/\ ((length found <= 1000)%nat -> take 1000 found = found).
Proof.
intros Hns startKey endKey r found.
assert (Hids : forall id,
  id ∈ couchdb.ID <$> found
  <-> exists k,
        id = string_of_list_byte (constructCompositeKey ns k)
        /\ string_le k1 k /\ is_Some (store.docs_of db !! id)).
{ intros id. rewrite list_elem_of_fmap. split.
  - intros (q & -> & Hq). apply elem_of_docs_in_range in Hq
      as (id & d & -> & Hd & Hr).
    apply in_range_open_ended in Hr as (k & -> & Hk).
    exists k. cbn [store.to_result couchdb.ID fst]. by rewrite Hd.
  - intros (k & -> & Hk & [d Hd]).
    exists (store.to_result
              (string_of_list_byte (constructCompositeKey ns k), d)).
    split; [done|].
    apply elem_of_docs_in_range. eexists _, d. split; [done|]. split; [done|].
    apply in_range_open_ended. by exists k. }
split; [apply compositeEndKey_rewrite|]. split; [|split; [|split; [|split]]].
- subst r. unfold GetStateRangeScanIterator.
  rewrite bool_decide_eq_true_2 by done.
  rewrite compositeEndKey_rewrite. fold startKey endKey.
  rewrite exec_bind, exec_ReadDocRange.
  cbn [couchdb.result couchdb.final couchdb.calls].
  pose proof (store.ReadDocRange_value startKey endKey 1000 0 db) as Hv.
  destruct (couchdb.handle_ReadDocRange startKey endKey 1000 0 db)
    as [[queryResult err] db'].
  cbn [fst snd] in *. exists (queryResult, err). destruct err as [e|]; cbn.
  + split; [done|]. split; [done|]. by intros ? [= <-].
  + split; [done|]. split; [|done]. intros _. rewrite Hv by done.
    unfold store.range_query. by rewrite drop_0.
- exact Hids.
- intros ns' k' Hne Hns' Hin. apply Hids in Hin as (k & E & _).
  apply (f_equal list_byte_of_string) in E.
  rewrite !list_byte_of_string_of_list_byte in E.
  by apply constructCompositeKey_inj in E as [? _].
- intros q Hq. apply elem_of_docs_in_range in Hq as (id & d & -> & Hd & Hr).
  apply in_range_open_ended in Hr as (k & -> & Hk).
  exists k. cbn [store.to_result couchdb.ID couchdb.Value fst snd].
  rewrite list_byte_of_string_of_list_byte, Hd.
  split; [by apply splitCompositeKey_encoded|]. by split.
- apply take_ge.
Qed.
End RangeScan.

(** ** The sample codec is lawful *)

Module sample_facts.
Local Open Scope string_scope.

Lemma strip_append (p s : string) : sample.strip p (p ++ s) = Some s.
Proof.
induction p as [|a p IH]; [by destruct s|].
change (String a p ++ s) with (String a (p ++ s)).
cbn [sample.strip]. by rewrite Ascii.eqb_refl.
Qed.

Lemma digits_uint (d : Decimal.uint) (c : ascii) (r : string) :
sample.is_digit c = false ->
sample.digits (NilEmpty.string_of_uint d ++ String c r)
= (NilEmpty.string_of_uint d, String c r).
Proof.
intros Hc. induction d; cbn [NilEmpty.string_of_uint];
  [change (EmptyString ++ String c r) with (String c r);
   cbn [sample.digits]; by rewrite Hc| ..];
  (match goal with
   | |- context [String ?a ?s ++ ?t] =>
       change (String a s ++ t) with (String a (s ++ t));
       cbn [sample.digits]; change (sample.is_digit a) with true
   end; cbn iota; by rewrite IHd).
Qed.

Lemma decimal_nonempty (n : N) : memdb.decimal n <> EmptyString.
Proof.
unfold memdb.decimal. destruct n as [|p]; [done|]. cbn.
pose proof (DecimalPos.Unsigned.to_uint_nonnil p) as Hp.
by destruct (Pos.to_uint p).
Qed.

Lemma number_decimal (n : N) (c : ascii) (r : string) :
sample.is_digit c = false ->
sample.number (memdb.decimal n ++ String c r) = Some (n, String c r).
Proof.
intros Hc. unfold sample.number. pose proof (decimal_nonempty n) as Hne.
unfold memdb.decimal in *. rewrite digits_uint by done.
destruct (NilEmpty.string_of_uint (N.to_uint n)) eqn:E; [done|].
rewrite <- E, NilEmpty.usu. cbn. by rewrite DecimalN.Unsigned.of_to.
Qed.

Lemma until_dquote_append (s r : string) :
sample.has_dquote s = false ->
sample.until_dquote (s ++ String sample.dquote r) = (s, String sample.dquote r).
Proof.
induction s as [|a s IH]; cbn [sample.has_dquote].
- intros _. change (EmptyString ++ String sample.dquote r)
    with (String sample.dquote r).
  cbn [sample.until_dquote]. by rewrite Ascii.eqb_refl.
- intros [Ha Hs]%orb_false_elim.
  change (String a s ++ String sample.dquote r)
    with (String a (s ++ String sample.dquote r)).
  cbn [sample.until_dquote]. by rewrite Ha, IH.
Qed.

Lemma parse_text_of (d : couchSavepointData) :
sample.has_dquote (UpdateSeq d) = false ->
sample.parse (sample.text_of d) = Some d.
Proof.
intros Hq. unfold sample.parse, sample.text_of.
rewrite strip_append. cbn [mbind option_bind].
change (sample.then_TxNum ++ ?r)
  with (String "," (sample.member "TxNum" ++ r)).
rewrite number_decimal by done. cbn [mbind option_bind].
change (String "," (sample.member "TxNum" ++ ?r))
  with (sample.then_TxNum ++ r).
rewrite strip_append. cbn [mbind option_bind].
change (sample.then_UpdateSeq ++ ?r)
  with (String ","
          (sample.member "UpdateSeq" ++ String sample.dquote EmptyString ++ r)).
rewrite number_decimal by done. cbn [mbind option_bind].
change (String ","
          (sample.member "UpdateSeq" ++ String sample.dquote EmptyString ++ ?r))
  with (sample.then_UpdateSeq ++ r).
rewrite strip_append. cbn [mbind option_bind].
change sample.close with (String sample.dquote "}").
rewrite until_dquote_append by done.
change (String sample.dquote "}") with (sample.close ++ EmptyString).
rewrite strip_append. cbn [mbind option_bind]. by destruct d.
Qed.

Lemma laws : @ExternalsLaws sample.externals.
Proof.
split.
- intros d b. cbn. unfold sample.Marshal.
  destruct (sample.has_dquote (UpdateSeq d)) eqn:Hq; [done|].
  intros [= <-]. exists (list_byte_of_string (sample.text_of d)), d.
  split; [done|]. unfold sample.Unmarshal.
  by rewrite string_of_list_byte_of_string, parse_text_of.
- done.
Qed.
End sample_facts.

(** ** The properties on concrete inputs *)

Lemma GetState_absent_or_error_witness :
  couchdb.result (couchdb.exec (GetState "ns" "missing") memdb.empty)
  = (None, None)
  /\ couchdb.result (couchdb.exec (GetState "ns" "missing") tt)
     = (None, Some downdb.refused).
Proof.
  split.
  - apply (GetState_absent_or_error "ns" "missing" memdb.empty); reflexivity.
  - apply (GetState_absent_or_error "ns" "missing" tt). reflexivity.
Defined.

Lemma GetStateMultipleKeys_sequential_witness :
  let reads := point_reads "chaincode1" ["alice"; "zed"; "bob"]%string
                 example.applied in
  Forall succeeded reads
  /\ couchdb.result
       (couchdb.exec
          (GetStateMultipleKeys "chaincode1" ["alice"; "zed"; "bob"]%string)
          example.applied)
     = (Some ((fun rd => (couchdb.result rd).1) <$> reads), None)
  /\ (point_reads "ns" ["a"; "b"]%string tt !! 0%nat
      = Some (couchdb.exec (GetState "ns" "a") tt)
      /\ couchdb.result
           (couchdb.exec (GetStateMultipleKeys "ns" ["a"; "b"]%string) tt)
         = (None, Some downdb.refused)).
Proof.
  intros reads.
  assert (Hok : Forall succeeded reads) by (repeat constructor).
  split; [exact Hok|]. split.
  - apply (GetStateMultipleKeys_sequential "chaincode1"
             ["alice"; "zed"; "bob"]%string example.applied). exact Hok.
  - split; [reflexivity|].
    apply (proj2 (GetStateMultipleKeys_sequential "ns" ["a"; "b"]%string tt)
             0%nat (couchdb.exec (GetState "ns" "a") tt) downdb.refused);
      [reflexivity|reflexivity|constructor].
Defined.

Lemma ApplyUpdates_entry_write_witness :
  Forall blind
    (couchdb.calls
       (couchdb.exec (ApplyUpdates example.batch example.height) memdb.empty)).
Proof.
  apply (ApplyUpdates_entry_write example.batch example.height memdb.empty).
Defined.

Lemma ApplyUpdates_order_witness :
  let r := couchdb.exec (ApplyUpdates example.batch example.height) memdb.empty in
  couchdb.result r = None
  /\ exists writes c1 info text s c2,
       couchdb.calls r =
         writes ++ [couchdb.EvEnsureFullCommit c1;
                    couchdb.EvGetDatabaseInfo (info, None);
                    couchdb.EvSaveDoc savepointDocID EmptyString text [] s;
                    couchdb.EvEnsureFullCommit c2]
       /\ Forall2 entry_write (rangeKVs (statedb.KVs example.batch)) writes
       /\ Forall (fun ev => event_error ev = None) writes
       /\ (forall ck vv,
             statedb.KVs example.batch !! ck = Some vv ->
             exists ev, ev ∈ writes /\ entry_write (ck, vv) ev)
       /\ ~ commit_failed c1 /\ ~ commit_failed c2 /\ s.2 = None
       /\ json_Marshal (savepoint_record example.height (couchdb.UpdateSeq info))
          = (text, None).
Proof.
  intros r.
  assert (Hr : couchdb.result r = None) by (vm_compute; reflexivity).
  split; [exact Hr|].
  exact (@ApplyUpdates_order sample.externals memdb.t memdb.couch
           sample_facts.laws example.batch example.height memdb.empty Hr).
Defined.

Lemma GetLatestSavePoint_after_ApplyUpdates_witness :
  let r := couchdb.exec (ApplyUpdates example.batch example.height) memdb.empty in
  couchdb.result r = None
  /\ (couchdb.handle_ReadDoc savepointDocID (couchdb.final r)).1.2 = None
  /\ couchdb.result (couchdb.exec GetLatestSavePoint (couchdb.final r))
     = (example.height, None)
  /\ couchdb.result (couchdb.exec GetLatestSavePoint memdb.empty)
     = ({| version.BlockNum := 0; version.TxNum := 0 |}, None)
  /\ couchdb.result (couchdb.exec GetLatestSavePoint example.garbled)
     = ({| version.BlockNum := 0; version.TxNum := 0 |},
        Some (errors_New "json: cannot unmarshal")).
Proof.
  intros r.
  assert (Hr : couchdb.result r = None) by (vm_compute; reflexivity).
  assert (Hread : (couchdb.handle_ReadDoc savepointDocID (couchdb.final r)).1.2
                  = None) by reflexivity.
  split; [exact Hr|]. split; [exact Hread|]. split; [|split].
  - exact (proj1 (@GetLatestSavePoint_after_ApplyUpdates sample.externals
                    sample_facts.laws memdb.t memdb.couch memdb.lawful
                    example.batch example.height memdb.empty) Hr Hread).
  - apply (@GetLatestSavePoint_after_ApplyUpdates sample.externals
                    sample_facts.laws memdb.t memdb.couch memdb.lawful
             example.batch example.height memdb.empty); reflexivity.
  - apply (proj2 (proj2 (@GetLatestSavePoint_after_ApplyUpdates sample.externals
                    sample_facts.laws memdb.t memdb.couch memdb.lawful
                           example.batch example.height example.garbled))
             {| store.body := Some (list_byte_of_string "oops");
                store.attachments := [] |}
             (list_byte_of_string "oops")
             {| BlockNum := 0; TxNum := 0; UpdateSeq := EmptyString |});
      vm_compute; reflexivity.
Defined.

(** C3 as the specification states it fails when it is the second flush
    that fails: a first batch commits height (5,2); the second batched
    write, at height (6,0), meets a flush that answers not ok after the
    savepoint record has been saved.  The call returns the full-commit
    error, yet the savepoint document is no longer what it was before the
    call, and the latest savepoint now reads (6,0). *)
Lemma ApplyUpdates_second_flush_failure_moves_savepoint :
  let db1 :=
    couchdb.final
      (couchdb.exec (ApplyUpdates example.batch example.height)
         example.fourth_flush_fails) in
  let r := couchdb.exec (ApplyUpdates example.batch2 example.height2) db1 in
  commits_of (couchdb.calls r) = [example.ok; example.not_ok]
  /\ commit_failed example.not_ok
  /\ couchdb.result r = Some (errors_New "Failed to perform full commit")
  /\ couchdb.result (couchdb.exec GetLatestSavePoint db1)
     = (example.height, None)
  /\ memdb.docs (couchdb.final r) !! savepointDocID
     <> memdb.docs db1 !! savepointDocID
  /\ couchdb.result (couchdb.exec GetLatestSavePoint (couchdb.final r))
     = (example.height2, None).
Proof.
  intros db1 r. split; [vm_compute; reflexivity|].
  split; [by right|]. split; [vm_compute; reflexivity|].
  split; [vm_compute; reflexivity|]. split; [|vm_compute; reflexivity].
  vm_compute. discriminate.
Qed.

Lemma ApplyUpdates_flush_failure_witness :
  let r := couchdb.exec (ApplyUpdates example.batch example.height)
             example.first_flush_fails in
  commits_of (couchdb.calls r) = [example.not_ok]
  /\ commit_failed example.not_ok
  /\ couchdb.result r = Some (errors_New "Failed to perform full commit")
  /\ store.docs_of (couchdb.final r) !! savepointDocID
     = store.docs_of example.first_flush_fails !! savepointDocID.
Proof.
  intros r.
  assert (Hc : commits_of (couchdb.calls r) = [example.not_ok])
    by (vm_compute; reflexivity).
  assert (Hf : commit_failed example.not_ok) by (by right).
  split; [exact Hc|]. split; [exact Hf|]. split.
  - apply (proj1 (ApplyUpdates_flush_failure example.batch example.height
                    example.first_flush_fails) example.not_ok);
      [change (example.not_ok ∈ commits_of (couchdb.calls r)); rewrite Hc; left
      |exact Hf].
  - exact (proj1 (proj2 (ApplyUpdates_flush_failure example.batch example.height
                           example.first_flush_fails))
             example.not_ok [] Hc Hf).
Defined.

Lemma GetStateRangeScanIterator_open_ended_witness :
  ~ hasSep "chaincode1"
  /\ string_of_list_byte (constructCompositeKey "chaincode1" "bob")
       ∈ couchdb.ID <$>
           store.docs_in_range
             (string_of_list_byte (constructCompositeKey "chaincode1" "b"))
             (string_of_list_byte
                (list_byte_of_string "chaincode1" ++ [lastKeyIndicator]))
             (store.docs_of example.applied).
Proof.
  assert (Hns : ~ hasSep "chaincode1") by (by apply (bool_decide_unpack _)).
  split; [exact Hns|].
  pose proof (GetStateRangeScanIterator_open_ended "chaincode1" "b"
                example.applied Hns) as Hscan.
  cbv zeta in Hscan. destruct Hscan as (_ & _ & Hids & _).
  apply Hids. exists "bob"%string. split; [reflexivity|].
  split; [by apply (bool_decide_unpack _)|].
  vm_compute. eexists. reflexivity.
Defined.

(** C9 as the specification states it fails on results that hold the
    savepoint document, whose identifier has no separator byte: the first
    call of [Next] panics in both scanners, instead of returning the
    first record. *)
Lemma Next_panics_without_separator :
  (1 <= length example.with_savepoint)%nat
  /\ (queryScanner_Next (newQueryScanner example.with_savepoint)).1
     = Panicked "index out of range"
  /\ (kvScanner_Next (newKVScanner "ns" example.with_savepoint)).1
     = Panicked "index out of range".
Proof. split; [cbn; lia|]. split; vm_compute; reflexivity. Qed.

Lemma scanners_Next_sequence_witness :
  Forall (fun q => hasSep (couchdb.ID q)) example.two_results
  /\ (1 <= 2)%nat /\ (Z.of_nat 2 <= maxInt + 1)%Z
  /\ (kvScanner_Next
        (kvScanner_after (2 - 1) (newKVScanner "ns" example.two_results))).1
     = Returned
         (Some {| statedb.CK := example.key "ns" "b";
                  statedb.VV := {| statedb.Value := Some [x32];
                                   statedb.Version := version.NewHeight 1 1 |} |},
          None)
  /\ (queryScanner_Next
        (queryScanner_after (3 - 1) (newQueryScanner example.two_results))).1
     = Returned (None, None).
Proof.
  assert (Hsep : Forall (fun q => hasSep (couchdb.ID q)) example.two_results).
  { repeat constructor; by apply (bool_decide_unpack _). }
  assert (Hmax : forall n : nat, (n <= 3)%nat -> (Z.of_nat n <= maxInt + 1)%Z).
  { intros n Hn. unfold maxInt, intSize. lia. }
  split; [exact Hsep|]. split; [lia|]. split; [apply Hmax; lia|]. split.
  - pose proof (scanners_Next_sequence "ns" example.two_results 2 Hsep
                  (le_S 1 1 (le_n 1)) (Hmax 2%nat (le_S 2 2 (le_n 2)))) as Hn.
    cbv zeta in Hn. destruct Hn as (_ & _ & _ & _ & Hn).
    change (example.two_results !! (2 - 1)%nat)
      with (Some {| couchdb.ID :=
                      string_of_list_byte (constructCompositeKey "ns" "b");
                    couchdb.Value := Some [x32] |}) in Hn.
    destruct Hn as (ns & key & Hsplit & Hkv & _).
    rewrite Hkv. vm_compute in Hsplit. by injection Hsplit as <- <-.
  - pose proof (scanners_Next_sequence "ns" example.two_results 3 Hsep
                  (le_S 1 2 (le_S 1 1 (le_n 1))) (Hmax 3%nat (le_n 3))) as Hn.
    cbv zeta in Hn. destruct Hn as (_ & _ & _ & _ & Hn).
    change (example.two_results !! (3 - 1)%nat)
      with (@None couchdb.QueryResult) in Hn.
    exact (proj2 Hn).
Defined.

(** * Further properties *)

(** ** The codec *)

Lemma bytes_Index_absent (b : bytes) : x00 ∉ b -> bytes_Index b [x00] = (-1)%Z.
Proof.
  induction b as [|a b IH]; intros Hb; [done|].
  assert (a <> x00) by (intros ->; apply Hb; left).
  assert (x00 ∉ b) by (intros ?; apply Hb; by right).
  cbn [bytes_Index bytes_HasPrefix].
  rewrite bool_decide_eq_false_2 by done. cbn [andb].
  by rewrite IH.
Qed.

Lemma splitCompositeKey_absent (b : bytes) :
  x00 ∉ b -> splitCompositeKey b = Panicked "index out of range".
Proof.
  intros Hb. unfold splitCompositeKey.
  change (bytes_SplitN b compositeKeySep 2) with (genSplit_loop 1 b [x00]).
  cbn [genSplit_loop]. by rewrite bytes_Index_absent.
Qed.

(** X1: decoding a byte sequence succeeds exactly when it holds the
    separator byte; the namespace it then returns holds no separator, and
    encoding the returned namespace and key gives the sequence back.
    Without a separator the decoder panics. *)
Theorem splitCompositeKey_decode (b : bytes) :
  match splitCompositeKey b with
  | Returned (ns, key) =>
      x00 ∈ b /\ constructCompositeKey ns key = b /\ ~ hasSep ns
  | Panicked _ => x00 ∉ b
  end.
Proof.
  destruct (decide (x00 ∈ b)) as [Hin|Hout].
  - assert (Hs : hasSep (string_of_list_byte b))
      by (unfold hasSep; by rewrite list_byte_of_string_of_list_byte).
    destruct (splitCompositeKey_hasSep _ Hs) as (ns & key & E & Hb & Hns).
    rewrite list_byte_of_string_of_list_byte in E, Hb. by rewrite E.
  - by rewrite splitCompositeKey_absent.
Qed.

(** X2: two (namespace, key) pairs whose namespaces hold no separator
    byte have the same encoded key only when they are the same pair. *)
Theorem constructCompositeKey_injective ns1 k1 ns2 k2 :
  ~ hasSep ns1 -> ~ hasSep ns2 ->
  constructCompositeKey ns1 k1 = constructCompositeKey ns2 k2 ->
  ns1 = ns2 /\ k1 = k2.
Proof. apply constructCompositeKey_inj. Qed.

Lemma constructCompositeKey_injective_witness :
  ~ hasSep "ns" /\ ~ hasSep "ns"
  /\ constructCompositeKey "ns" "k" = constructCompositeKey "ns" "k"
  /\ ("ns"%string = "ns"%string /\ "k"%string = "k"%string).
Proof.
  assert (H : ~ hasSep "ns") by (by apply (bool_decide_unpack _)).
  split; [exact H|]. split; [exact H|]. split; [reflexivity|].
  exact (constructCompositeKey_injective "ns" "k" "ns" "k" H H eq_refl).
Defined.

(** X3: no encoded key is the identifier of the savepoint document,
    whatever the namespace and the key: a point read never reads the
    savepoint document and no write of a batch entry goes to it. *)
Theorem savepointDocID_reserved `{!Externals} {DB : Type}
    `{!couchdb.CouchDatabase DB} (ns key : string) (db : DB)
    (batch : statedb.UpdateBatch) (height : version.Height) :
  string_of_list_byte (constructCompositeKey ns key) <> savepointDocID
  /\ (forall res,
        couchdb.EvReadDoc savepointDocID res
          ∉ couchdb.calls (couchdb.exec (GetState ns key) db))
  /\ (forall i kv rev b atts res,
        rangeKVs (statedb.KVs batch) !! i = Some kv ->
        couchdb.calls (couchdb.exec (ApplyUpdates batch height) db) !! i
          <> Some (couchdb.EvSaveDoc savepointDocID rev b atts res)).
Proof.
  assert (Hne : forall n k,
    string_of_list_byte (constructCompositeKey n k) <> savepointDocID).
  { intros n k.
    apply (entry_id_savepointDocID
             ({| statedb.Namespace := n; statedb.Key := k |},
              {| statedb.Value := None; statedb.Version := version.NewHeight 0 0 |})). }
  split; [apply Hne|]. split.
  - intros res. rewrite exec_GetState. cbn [couchdb.calls].
    intros [=E]%list_elem_of_singleton. by apply (Hne ns key).
  - intros i kv rev b atts res Hkv Hev.
    rewrite exec_ApplyUpdates in Hev.
    destruct (exec_ApplyUpdates_loop (rangeKVs (statedb.KVs batch)) db)
      as [Hw Hl].
    set (l := couchdb.exec (ApplyUpdates_loop _) db) in *.
    assert (Hi : couchdb.calls l !! i
                 = Some (couchdb.EvSaveDoc savepointDocID rev b atts res)).
    { destruct (couchdb.result l) as [e|]; [done|].
      cbn [couchdb.calls] in Hev. destruct Hl as [Hlen _].
      rewrite lookup_app_l in Hev; [done|].
      rewrite Hlen. by apply lookup_lt_Some in Hkv. }
    destruct (Forall2_lookup_r _ _ _ _ _ Hw Hi) as (kv' & _ & res' & Hwr).
    pose proof (entry_id_savepointDocID kv') as Hid.
    destruct (IsJSON _); injection Hwr as E; by rewrite E in Hid.
Qed.

(** ** Failing writes *)

Section WriteFailure.
Context `{!Externals} {DB : Type} `{!couchdb.CouchDatabase DB}.

(** X4: when the save of a batch entry fails, the batched write stops
    there: that save is its last call, its error is returned as it is,
    and no flush has been issued, so the savepoint protocol has not
    started. *)
Theorem ApplyUpdates_write_failure (batch : statedb.UpdateBatch)
    (height : version.Height) (db : DB) (i : nat) (ev : couchdb.event)
    (e : error) :
  let r := couchdb.exec (ApplyUpdates batch height) db in
  (i < length (rangeKVs (statedb.KVs batch)))%nat ->
  couchdb.calls r !! i = Some ev ->
  event_error ev = Some e ->
  couchdb.result r = Some e
  /\ length (couchdb.calls r) = S i
  /\ commits_of (couchdb.calls r) = [].
Proof.
  intros r Hi Hev He. subst r. rewrite exec_ApplyUpdates in Hev |- *.
  set (kvs := rangeKVs (statedb.KVs batch)) in *.
  destruct (exec_ApplyUpdates_loop kvs db) as [Hw Hl].
  pose proof (commits_of_writes _ _ Hw) as Hnone.
  set (l := couchdb.exec (ApplyUpdates_loop kvs) db) in *.
  destruct (couchdb.result l) as [e'|] eqn:El.
  - destruct Hl as (pre & ev' & Hcalls & He' & Hpre).
    rewrite Hcalls in Hev |- *.
    destruct (decide (i < length pre)%nat) as [Hlt|Hge].
    + rewrite lookup_app_l in Hev by done.
      rewrite Forall_forall in Hpre.
      apply list_elem_of_lookup_2, Hpre in Hev. cbn beta in Hev. congruence.
    + rewrite lookup_app_r in Hev by lia.
      destruct (i - length pre)%nat eqn:Ei; [|by destruct n].
      injection Hev as ->. rewrite length_app. cbn [length].
      split; [congruence|]. split; [lia|]. by rewrite <- Hcalls.
  - destruct Hl as [Hlen Hok]. cbn [couchdb.calls] in Hev.
    rewrite lookup_app_l in Hev by lia.
    rewrite Forall_forall in Hok.
    apply list_elem_of_lookup_2, Hok in Hev. cbn beta in Hev. congruence.
Qed.
End WriteFailure.

(** ** What a batched write leaves in a lawful store *)

Section Stored.
Context `{!Externals} `{!ExternalsLaws}.
Context {DB : Type} `{!couchdb.CouchDatabase DB} `{!store.Lawful DB}.

Lemma ApplyUpdates_loop_frame kvs : forall (db : DB) id,
  id ∉ entry_id <$> kvs ->
  store.docs_of (couchdb.final (couchdb.exec (ApplyUpdates_loop kvs) db)) !! id
  = store.docs_of db !! id.
Proof.
  induction kvs as [|[ck vv] kvs IH]; intros db id Hid; [done|].
  cbn [ApplyUpdates_loop].
  assert (Hne : id <> string_of_list_byte
                        (constructCompositeKey (statedb.Namespace ck)
                           (statedb.Key ck))).
  { intros ->. apply Hid. left. }
  assert (Hrest : id ∉ entry_id <$> kvs) by (intros ?; apply Hid; by right).
  destruct (IsJSON _); rewrite exec_bind, exec_SaveDoc;
    cbn [couchdb.result couchdb.final];
    match goal with
    | |- context [couchdb.handle_SaveDoc ?i ?rv ?b ?a db] =>
        pose proof (store.SaveDoc_others i rv b a db id Hne) as Ho;
        destruct (couchdb.handle_SaveDoc i rv b a db) as [[rev [e|]] db']
    end; cbn [fst snd] in *; try done; by rewrite IH.
Qed.

Lemma ApplyUpdates_loop_written kvs : forall db : DB,
  NoDup (entry_id <$> kvs) ->
  couchdb.result (couchdb.exec (ApplyUpdates_loop kvs) db) = None ->
  forall kv, kv ∈ kvs ->
    store.docs_of (couchdb.final (couchdb.exec (ApplyUpdates_loop kvs) db))
      !! entry_id kv
    = Some (entry_doc kv).
Proof.
  induction kvs as [|[ck vv] kvs IH]; intros db Hnd Hres kv Hkv;
    [by apply elem_of_nil in Hkv|].
  rewrite fmap_cons in Hnd. apply NoDup_cons in Hnd as [Hfresh Hnd].
  cbn [ApplyUpdates_loop] in *.
  assert (Hdoc : forall b atts,
    (b, atts) = (if IsJSON (string_of_slice (statedb.Value vv))
                 then (statedb.Value vv, [])
                 else (None, [{| couchdb.AttachmentBytes := statedb.Value vv;
                                 couchdb.ContentType := "application/octet-stream";
                                 couchdb.Name := "valueBytes" |}])) ->
    {| store.body := b; store.attachments := atts |} = entry_doc (ck, vv)).
  { intros b atts E. unfold entry_doc. cbn [snd].
    destruct (IsJSON _); by injection E as -> ->. }
  destruct (IsJSON (string_of_slice (statedb.Value vv)));
    rewrite exec_bind, exec_SaveDoc in Hres |- *;
    cbn [couchdb.result couchdb.final] in *;
    match goal with
    | |- context [couchdb.handle_SaveDoc ?i ?rv ?b ?a db] =>
        pose proof (store.SaveDoc_docs i rv b a db) as Hs;
        specialize (Hdoc b a eq_refl);
        destruct (couchdb.handle_SaveDoc i rv b a db) as [[rev [e|]] db']
    end; cbn [fst snd] in *; try done.
  all: apply elem_of_cons in Hkv as [->|Hkv]; [|by apply IH].
  all: rewrite ApplyUpdates_loop_frame by done.
  all: rewrite Hs by done; unfold entry_id at 1; cbn [fst];
       by rewrite lookup_insert_eq, Hdoc.
Qed.

Lemma recordSavepoint_frame height (db : DB) id :
  id <> savepointDocID ->
  store.docs_of (couchdb.final (couchdb.exec (recordSavepoint height) db)) !! id
  = store.docs_of db !! id.
Proof.
  intros Hid. rewrite exec_recordSavepoint.
  pose proof (store.EnsureFullCommit_docs db) as Hd1.
  destruct (couchdb.handle_EnsureFullCommit db) as [c1 db1]. cbn [snd] in Hd1.
  destruct (_ || _); cbn [couchdb.final]; [by rewrite Hd1|].
  pose proof (store.GetDatabaseInfo_docs db1) as Hd2.
  destruct (couchdb.handle_GetDatabaseInfo db1) as [[info [e|]] db2];
    cbn [fst snd couchdb.final] in *; [by rewrite Hd2, Hd1|].
  destruct (json_Marshal _) as [text [e|]]; cbn [fst snd couchdb.final];
    [by rewrite Hd2, Hd1|].
  pose proof (store.SaveDoc_others savepointDocID EmptyString text [] db2 id Hid)
    as Hd3.
  destruct (couchdb.handle_SaveDoc _ _ _ _ db2) as [[rev [e|]] db3];
    cbn [fst snd couchdb.final] in *; [by rewrite Hd3, Hd2, Hd1|].
  pose proof (store.EnsureFullCommit_docs db3) as Hd4.
  destruct (couchdb.handle_EnsureFullCommit db3) as [c2 db4]. cbn [snd] in Hd4.
  cbn [couchdb.final]. by rewrite Hd4, Hd3, Hd2, Hd1.
Qed.

Lemma ApplyUpdates_final batch height (db : DB) id :
  id <> savepointDocID ->
  store.docs_of (couchdb.final (couchdb.exec (ApplyUpdates batch height) db)) !! id
  = store.docs_of
      (couchdb.final
         (couchdb.exec (ApplyUpdates_loop (rangeKVs (statedb.KVs batch))) db))
      !! id.
Proof.
  intros Hid. rewrite exec_ApplyUpdates.
  destruct (couchdb.result (couchdb.exec (ApplyUpdates_loop _) db)); [done|].
  cbn [couchdb.final]. by apply recordSavepoint_frame.
Qed.

Lemma entry_id_rangeKVs batch id :
  id ∈ entry_id <$> rangeKVs (statedb.KVs batch)
  <-> exists ck vv,
        statedb.KVs batch !! ck = Some vv
        /\ id = string_of_list_byte
                  (constructCompositeKey (statedb.Namespace ck) (statedb.Key ck)).
Proof.
  rewrite list_elem_of_fmap. setoid_rewrite rangeKVs_Permutation. split.
  - intros ([ck vv] & -> & Hin%elem_of_map_to_list). by exists ck, vv.
  - intros (ck & vv & Hin & ->). exists (ck, vv). split; [done|].
    by apply elem_of_map_to_list.
Qed.

Lemma entry_id_NoDup batch :
  batch_namespaces_ok batch ->
  NoDup (entry_id <$> rangeKVs (statedb.KVs batch)).
Proof.
  intros Hns. apply NoDup_fmap_2_strong.
  - intros [ck1 vv1] [ck2 vv2] Hin1 Hin2 E.
    rewrite rangeKVs_Permutation in Hin1, Hin2.
    apply elem_of_map_to_list in Hin1, Hin2.
    unfold entry_id in E. cbn [fst] in E.
    apply (f_equal list_byte_of_string) in E.
    rewrite !list_byte_of_string_of_list_byte in E.
    apply constructCompositeKey_inj in E as [En Ek]; [|by eapply Hns..].
    assert (ck1 = ck2) as -> by (destruct ck1, ck2; cbn in *; congruence).
    congruence.
  - rewrite rangeKVs_Permutation. apply NoDup_map_to_list.
Qed.

(** X5: on a lawful store a batched write, whether it succeeds or fails,
    leaves every document alone except those under the encoded keys of
    its entries and the savepoint document. *)
Theorem ApplyUpdates_frame (batch : statedb.UpdateBatch)
    (height : version.Height) (db : DB) (id : string) :
  id <> savepointDocID ->
  (forall ck vv,
     statedb.KVs batch !! ck = Some vv ->
     id <> string_of_list_byte
             (constructCompositeKey (statedb.Namespace ck) (statedb.Key ck))) ->
  store.docs_of (couchdb.final (couchdb.exec (ApplyUpdates batch height) db)) !! id
  = store.docs_of db !! id.
Proof.
  intros Hsp Hid. rewrite ApplyUpdates_final by done.
  apply ApplyUpdates_loop_frame.
  intros (ck & vv & Hin & ->)%entry_id_rangeKVs. by apply (Hid ck vv).
Qed.

(** X6: on a lawful store, after a batched write whose namespaces hold no
    separator byte has succeeded, a point read of any key of the batch
    (the read itself meeting no store error) returns the value written,
    byte for byte, with the placeholder version (1,1) in the place of the
    version written; a key written with a nil value reads as absent. *)
Theorem GetState_after_ApplyUpdates (batch : statedb.UpdateBatch)
    (height : version.Height) (db : DB) (ck : statedb.CompositeKey)
    (vv : statedb.VersionedValue) :
  let r := couchdb.exec (ApplyUpdates batch height) db in
  let id := string_of_list_byte
              (constructCompositeKey (statedb.Namespace ck) (statedb.Key ck)) in
  batch_namespaces_ok batch ->
  couchdb.result r = None ->
  statedb.KVs batch !! ck = Some vv ->
  (couchdb.handle_ReadDoc id (couchdb.final r)).1.2 = None ->
  couchdb.result
    (couchdb.exec (GetState (statedb.Namespace ck) (statedb.Key ck))
       (couchdb.final r))
  = (read_back (statedb.Value vv), None).
Proof.
  intros r id Hns Hres Hin Hread. subst r.
  rewrite exec_GetState. fold id. cbn [couchdb.result].
  rewrite Hread, (store.ReadDoc_value _ _ Hread).
  rewrite ApplyUpdates_final
    by (apply (entry_id_savepointDocID (ck, vv))).
  assert (Hl : couchdb.result
                 (couchdb.exec (ApplyUpdates_loop (rangeKVs (statedb.KVs batch))) db)
               = None).
  { rewrite exec_ApplyUpdates in Hres. revert Hres.
    destruct (couchdb.result (couchdb.exec (ApplyUpdates_loop _) db)) eqn:E;
      [|done]. intros Hres. congruence. }
  assert (Hkv : (ck, vv) ∈ rangeKVs (statedb.KVs batch))
    by (rewrite rangeKVs_Permutation; by apply elem_of_map_to_list).
  change id with (entry_id (ck, vv)).
  rewrite (ApplyUpdates_loop_written _ db (entry_id_NoDup batch Hns) Hl _ Hkv).
  cbn [mbind option_bind]. unfold entry_doc, store.doc_value. cbn [snd].
  destruct (IsJSON _); cbn [store.attachments store.body couchdb.AttachmentBytes];
    by destruct (statedb.Value vv).
Qed.

(** X7: on a lawful store, applying the same batch (its namespaces free
    of the separator) a second time, at another height, changes no
    document but the savepoint document. *)
Theorem ApplyUpdates_twice (batch : statedb.UpdateBatch)
    (height1 height2 : version.Height) (db : DB) (id : string) :
  let r1 := couchdb.exec (ApplyUpdates batch height1) db in
  let r2 := couchdb.exec (ApplyUpdates batch height2) (couchdb.final r1) in
  batch_namespaces_ok batch ->
  couchdb.result r1 = None ->
  couchdb.result r2 = None ->
  id <> savepointDocID ->
  store.docs_of (couchdb.final r2) !! id = store.docs_of (couchdb.final r1) !! id.
Proof.
  intros r1 r2 Hns Hr1 Hr2 Hid. subst r1 r2.
  assert (Hl : forall h d,
    couchdb.result (couchdb.exec (ApplyUpdates batch h) d) = None ->
    couchdb.result
      (couchdb.exec (ApplyUpdates_loop (rangeKVs (statedb.KVs batch))) d) = None).
  { intros h d Hr. rewrite exec_ApplyUpdates in Hr. revert Hr.
    destruct (couchdb.result (couchdb.exec (ApplyUpdates_loop _) d)) eqn:E;
      [|done]. intros Hr. congruence. }
  destruct (decide (id ∈ entry_id <$> rangeKVs (statedb.KVs batch))) as [Hin|Hout].
  - apply list_elem_of_fmap in Hin as (kv & -> & Hkv).
    rewrite !ApplyUpdates_final by done.
    rewrite (ApplyUpdates_loop_written _ _ (entry_id_NoDup batch Hns)
               (Hl _ _ Hr2) _ Hkv).
    by rewrite (ApplyUpdates_loop_written _ _ (entry_id_NoDup batch Hns)
                  (Hl _ _ Hr1) _ Hkv).
  - rewrite (ApplyUpdates_final batch height2) by done.
    by rewrite ApplyUpdates_loop_frame.
Qed.
End Stored.

(** ** Reads change nothing *)

Section ReadOnly.
Context `{!Externals} {DB : Type} `{!couchdb.CouchDatabase DB}.
Context `{!store.Lawful DB}.

Lemma exec_QueryDocuments q l sk (db : DB) :
  couchdb.exec (couchdb.QueryDocuments q l sk) db =
  {| couchdb.result := (couchdb.handle_QueryDocuments q l sk db).1;
     couchdb.final := (couchdb.handle_QueryDocuments q l sk db).2;
     couchdb.calls :=
       [couchdb.EvQueryDocuments q l sk (couchdb.handle_QueryDocuments q l sk db).1] |}.
Proof.
  unfold couchdb.QueryDocuments. cbn [couchdb.exec].
  by destruct (couchdb.handle_QueryDocuments q l sk db).
Qed.

Lemma GetStateMultipleKeys_loop_reads namespace keys : forall i vals (db : DB),
  let r := couchdb.exec (GetStateMultipleKeys_loop namespace i keys vals) db in
  Forall reads_only (couchdb.calls r)
  /\ store.docs_of (couchdb.final r) = store.docs_of db.
Proof.
  induction keys as [|key keys IH]; intros i vals db r; subst r; [by split|].
  cbn [GetStateMultipleKeys_loop]. rewrite exec_bind, exec_GetState.
  cbn [couchdb.result couchdb.final couchdb.calls].
  pose proof (store.ReadDoc_docs
                (string_of_list_byte (constructCompositeKey namespace key)) db)
    as Hd.
  destruct (couchdb.handle_ReadDoc _ db) as [[[docBytes rev] [e|]] db'];
    cbn [fst snd] in *.
  - cbn. split; [by repeat constructor|done].
  - destruct docBytes;
      match goal with
      | |- context [GetStateMultipleKeys_loop namespace ?j keys ?v] =>
          destruct (IH j v db') as [Hc Hf]
      end; (split; [by constructor|by rewrite Hf]).
Qed.

(** X8: the five reading operations (point read, multi-key read, range
    scan, query, latest savepoint) issue no save, no flush and no
    database-info call, and on a lawful store they leave every document
    as it was. *)
Theorem reads_change_nothing (namespace key startKey endKey query : string)
    (keys : list string) (db : DB) :
  let unchanged {A} (p : couchdb.Prog A) :=
    Forall reads_only (couchdb.calls (couchdb.exec p db))
    /\ store.docs_of (couchdb.final (couchdb.exec p db)) = store.docs_of db in
  unchanged (GetState namespace key)
  /\ unchanged (GetStateMultipleKeys namespace keys)
  /\ unchanged (GetStateRangeScanIterator namespace startKey endKey)
  /\ unchanged (ExecuteQuery query)
  /\ unchanged GetLatestSavePoint.
Proof.
  cbv zeta. split; [|split; [|split; [|split]]].
  - rewrite exec_GetState. cbn [couchdb.calls couchdb.final].
    split; [by repeat constructor|apply store.ReadDoc_docs].
  - apply GetStateMultipleKeys_loop_reads.
  - unfold GetStateRangeScanIterator. rewrite exec_bind, exec_ReadDocRange.
    cbn [couchdb.result couchdb.final couchdb.calls].
    match goal with
    | |- context [couchdb.handle_ReadDocRange ?s ?e ?l ?k db] =>
        pose proof (store.ReadDocRange_docs s e l k db) as Hd;
        destruct (couchdb.handle_ReadDocRange s e l k db) as [[qr [err|]] db']
    end; cbn [fst snd] in *; cbn; (split; [by repeat constructor|done]).
  - unfold ExecuteQuery. rewrite exec_bind, exec_QueryDocuments.
    cbn [couchdb.result couchdb.final couchdb.calls].
    pose proof (store.QueryDocuments_docs query 1000 0 db) as Hd.
    destruct (couchdb.handle_QueryDocuments query 1000 0 db)
      as [[qr [err|]] db']; cbn [fst snd] in *; cbn;
      (split; [by repeat constructor|done]).
  - unfold GetLatestSavePoint. rewrite exec_bind, exec_ReadDoc.
    cbn [couchdb.result couchdb.final couchdb.calls].
    pose proof (store.ReadDoc_docs savepointDocID db) as Hd.
    destruct (couchdb.handle_ReadDoc savepointDocID db)
      as [[[docBytes rev] [e|]] db']; cbn [fst snd] in *.
    + cbn. split; [by repeat constructor|done].
    + destruct docBytes as [text|]; [|cbn; split; [by repeat constructor|done]].
      destruct (json_Unmarshal text) as [d [e|]]; cbn;
        (split; [by repeat constructor|done]).
Qed.
End ReadOnly.

(** ** Bounded range scans *)

(** The byte strings from [n ++ 0x00 :: k1] up to, and not including,
    [n ++ 0x00 :: k2] are those that start with [n ++ [0x00]] and go on
    with some [k] from [k1] up to, and not including, [k2]. *)
Lemma bytes_range_closed (n k1 k2 x : bytes) :
  bytes_le (n ++ x00 :: k1) x /\ bytes_lt x (n ++ x00 :: k2)
  <-> exists k, x = n ++ x00 :: k /\ bytes_le k1 k /\ bytes_lt k k2.
Proof.
  unfold bytes_le, bytes_lt. revert x.
  induction n as [|a n IH]; intros [|b x]; cbn [app bytes_Compare].
  - split; [by intros [? _]|by intros (k & ? & _)].
  - rewrite (byte_compare_antisym x00 b). split.
    + intros [Hlo Hhi]. destruct (byte_compare x00 b) eqn:E; cbn in Hhi; try done.
      apply byte_compare_eq in E as <-. by exists x.
    + intros (k & [= -> ->] & Hk). by rewrite byte_compare_refl.
  - split; [by intros [? _]|by intros (k & ? & _)].
  - rewrite (byte_compare_antisym a b). split.
    + intros [Hlo Hhi]. destruct (byte_compare a b) eqn:E; cbn in Hhi; try done.
      apply byte_compare_eq in E as ->.
      destruct (proj1 (IH x) (conj Hlo Hhi)) as (k & -> & Hk). by exists k.
    + intros (k & [= -> ->] & Hk). rewrite byte_compare_refl. cbn.
      apply IH. by exists k.
Qed.

Lemma in_range_closed ns k1 k2 id :
  store.in_range
    (string_of_list_byte (constructCompositeKey ns k1))
    (string_of_list_byte (constructCompositeKey ns k2)) id
  <-> exists k,
        id = string_of_list_byte (constructCompositeKey ns k)
        /\ string_le k1 k /\ string_lt k k2.
Proof.
  unfold store.in_range.
  rewrite string_le_of_bytes, string_lt_of_bytes, !constructCompositeKey_unfold.
  rewrite bytes_range_closed. split.
  - intros (kb & E & Hlo & Hhi). exists (string_of_list_byte kb). split.
    + rewrite constructCompositeKey_unfold, list_byte_of_string_of_list_byte.
      by rewrite <- E, string_of_list_byte_of_string.
    + unfold string_le, string_lt, string_Compare.
      by rewrite list_byte_of_string_of_list_byte.
  - intros (k & -> & Hk). exists (list_byte_of_string k). split; [|done].
    by rewrite list_byte_of_string_of_list_byte, constructCompositeKey_unfold.
Qed.

(** The range a scan asks the store for. *)
Lemma exec_GetStateRangeScanIterator {DB : Type} `{!couchdb.CouchDatabase DB}
    (ns startKey endKey : string) (db : DB) :
  let s := string_of_list_byte (constructCompositeKey ns startKey) in
  let e := if bool_decide (endKey = EmptyString)
           then string_of_list_byte (list_byte_of_string ns ++ [lastKeyIndicator])
           else string_of_list_byte (constructCompositeKey ns endKey) in
  let res := (couchdb.handle_ReadDocRange s e 1000 0 db).1 in
  couchdb.exec (GetStateRangeScanIterator ns startKey endKey) db =
  {| couchdb.result :=
       match res.2 with
       | Some err => (None, Some err)
       | None => (Some (newKVScanner ns res.1), None)
       end;
     couchdb.final := (couchdb.handle_ReadDocRange s e 1000 0 db).2;
     couchdb.calls := [couchdb.EvReadDocRange s e 1000 0 res] |}.
Proof.
  intros s e res. subst s e res. unfold GetStateRangeScanIterator.
  case_bool_decide as Hend.
  - subst endKey. rewrite compositeEndKey_rewrite.
    rewrite exec_bind, exec_ReadDocRange.
    cbn [couchdb.result couchdb.final couchdb.calls].
    by destruct (couchdb.handle_ReadDocRange _ _ _ _ db) as [[qr [err|]] db'].
  - rewrite exec_bind, exec_ReadDocRange.
    cbn [couchdb.result couchdb.final couchdb.calls].
    by destruct (couchdb.handle_ReadDocRange _ _ _ _ db) as [[qr [err|]] db'].
Qed.

Section BoundedScan.
Context {DB : Type} `{!couchdb.CouchDatabase DB} `{!store.Lawful DB}.

(** X9: a range scan with a non-empty end key asks the store for the
    range from the encoded start key to the encoded end key, neither
    rewritten, with limit 1000 and skip 0, and returns a store error as
    it is, with no iterator.  On a lawful store the documents in that
    range are exactly the stored keys of the namespace from the start key
    (inclusive) to the end key (exclusive); the savepoint document is
    never among them; the scan returns the first 1000 in identifier
    order. *)
Theorem GetStateRangeScanIterator_bounded (ns startKey endKey : string) (db : DB) :
  endKey <> EmptyString ->
  let s := string_of_list_byte (constructCompositeKey ns startKey) in
  let e := string_of_list_byte (constructCompositeKey ns endKey) in
  let r := couchdb.exec (GetStateRangeScanIterator ns startKey endKey) db in
  let found := store.docs_in_range s e (store.docs_of db) in
  (exists res,
     couchdb.calls r = [couchdb.EvReadDocRange s e 1000 0 res]
     /\ (res.2 = None ->
         couchdb.result r = (Some (newKVScanner ns (take 1000 found)), None))
     /\ (forall err, res.2 = Some err -> couchdb.result r = (None, Some err)))
  /\ (forall id,
        id ∈ couchdb.ID <$> found
        <-> exists k,
              id = string_of_list_byte (constructCompositeKey ns k)
              /\ string_le startKey k /\ string_lt k endKey
              /\ is_Some (store.docs_of db !! id))
  /\ savepointDocID ∉ couchdb.ID <$> found.
Proof.
  intros Hend s e r found.
  assert (Hids : forall id,
    id ∈ couchdb.ID <$> found
    <-> exists k,
          id = string_of_list_byte (constructCompositeKey ns k)
          /\ string_le startKey k /\ string_lt k endKey
          /\ is_Some (store.docs_of db !! id)).
  { intros id. rewrite list_elem_of_fmap. split.
    - intros (q & -> & Hq). apply elem_of_docs_in_range in Hq
        as (id & d & -> & Hd & Hr).
      apply in_range_closed in Hr as (k & -> & Hlo & Hhi).
      exists k. cbn [store.to_result couchdb.ID fst]. by rewrite Hd.
    - intros (k & -> & Hlo & Hhi & [d Hd]).
      exists (store.to_result
                (string_of_list_byte (constructCompositeKey ns k), d)).
      split; [done|].
      apply elem_of_docs_in_range. eexists _, d. split; [done|]. split; [done|].
      apply in_range_closed. by exists k. }
  split; [|split].
  - subst r. rewrite exec_GetStateRangeScanIterator.
    rewrite bool_decide_eq_false_2 by done. fold s e.
    cbn [couchdb.result couchdb.calls].
    pose proof (store.ReadDocRange_value s e 1000 0 db) as Hv.
    destruct (couchdb.handle_ReadDocRange s e 1000 0 db) as [[qr err] db'].
    cbn [fst snd] in *. exists (qr, err). cbn [fst snd].
    split; [done|]. split.
    + intros ->. rewrite Hv by done. unfold store.range_query.
      by rewrite drop_0.
    + by intros err' ->.
  - exact Hids.
  - intros (k & E & _)%Hids. symmetry in E.
    by apply (entry_id_savepointDocID
                ({| statedb.Namespace := ns; statedb.Key := k |},
                 {| statedb.Value := None;
                    statedb.Version := version.NewHeight 0 0 |})) in E.
Qed.
End BoundedScan.

(** ** What [Next] makes of a result *)

Lemma kvScanner_Next_at namespace results (i : nat) q :
  (1 <= i)%nat -> (Z.of_nat i <= maxInt + 1)%Z ->
  results !! (i - 1)%nat = Some q ->
  (kvScanner_Next (kvScanner_after (i - 1) (newKVScanner namespace results))).1
  = match splitCompositeKey (list_byte_of_string (couchdb.ID q)) with
    | Returned (_, key) => Returned (Some (kv_record namespace key q), None)
    | Panicked msg => Panicked msg
    end.
Proof.
  intros Hi Hmax Hq. rewrite kvScanner_after_state by lia.
  unfold kvScanner_Next.
  cbn [kvScanner.cursor kvScanner.results kvScanner.namespace].
  assert (Hw : int_wrap (Z.of_nat (i - 1) - 1 + 1) = Z.of_nat (i - 1)).
  { rewrite int_wrap_in_range; [lia|]. unfold maxInt, intSize in *. lia. }
  rewrite Hw, slice_index_lookup, Hq.
  apply lookup_lt_Some in Hq.
  destruct (Z.geb_spec (Z.of_nat (i - 1)) (Z.of_nat (length results))); [lia|].
  by destruct (splitCompositeKey _) as [[? ?]|].
Qed.

Lemma queryScanner_Next_at results (i : nat) q :
  (1 <= i)%nat -> (Z.of_nat i <= maxInt + 1)%Z ->
  results !! (i - 1)%nat = Some q ->
  (queryScanner_Next (queryScanner_after (i - 1) (newQueryScanner results))).1
  = match splitCompositeKey (list_byte_of_string (couchdb.ID q)) with
    | Returned (namespace, key) =>
        Returned (Some (query_record namespace key q), None)
    | Panicked msg => Panicked msg
    end.
Proof.
  intros Hi Hmax Hq. rewrite queryScanner_after_state by lia.
  unfold queryScanner_Next.
  cbn [queryScanner.cursor queryScanner.results].
  assert (Hw : int_wrap (Z.of_nat (i - 1) - 1 + 1) = Z.of_nat (i - 1)).
  { rewrite int_wrap_in_range; [lia|]. unfold maxInt, intSize in *. lia. }
  rewrite Hw, slice_index_lookup, Hq.
  apply lookup_lt_Some in Hq.
  destruct (Z.geb_spec (Z.of_nat (i - 1)) (Z.of_nat (length results))); [lia|].
  by destruct (splitCompositeKey _) as [[? ?]|].
Qed.

(** X10: a result whose identifier holds no separator byte makes the call
    of [Next] that reaches it panic, in both scanners; the cursor has
    moved on all the same, so the call after it goes on with the result
    that follows. *)
Theorem Next_on_undecodable_result (namespace : string)
    (results : list couchdb.QueryResult) (i : nat) (q : couchdb.QueryResult) :
  (1 <= i)%nat -> (Z.of_nat i <= maxInt + 1)%Z ->
  results !! (i - 1)%nat = Some q ->
  ~ hasSep (couchdb.ID q) ->
  let kv := kvScanner_after (i - 1) (newKVScanner namespace results) in
  let qs := queryScanner_after (i - 1) (newQueryScanner results) in
  (kvScanner_Next kv).1 = Panicked "index out of range"
  /\ (queryScanner_Next qs).1 = Panicked "index out of range"
  /\ kvScanner.cursor (kvScanner_Next kv).2 = (Z.of_nat i - 1)%Z
  /\ queryScanner.cursor (queryScanner_Next qs).2 = (Z.of_nat i - 1)%Z.
Proof.
  intros Hi Hmax Hq Hsep kv qs. subst kv qs.
  rewrite (kvScanner_Next_at _ _ _ q), (queryScanner_Next_at _ _ q) by done.
  rewrite splitCompositeKey_absent by done.
  split; [done|]. split; [done|].
  rewrite kvScanner_Next_state, queryScanner_Next_state.
  rewrite kvScanner_after_state, queryScanner_after_state by lia.
  cbn [kvScanner.cursor queryScanner.cursor].
  rewrite int_wrap_in_range; [lia|]. unfold maxInt, intSize in *. lia.
Qed.

(** ** Iterating over what a scan or a query returned *)

Section Iterating.
Context {DB : Type} `{!couchdb.CouchDatabase DB} `{!store.Lawful DB}.

Lemma in_range_scan ns startKey endKey id :
  store.in_range
    (string_of_list_byte (constructCompositeKey ns startKey))
    (if bool_decide (endKey = EmptyString)
     then string_of_list_byte (list_byte_of_string ns ++ [lastKeyIndicator])
     else string_of_list_byte (constructCompositeKey ns endKey)) id ->
  exists k,
    id = string_of_list_byte (constructCompositeKey ns k)
    /\ string_le startKey k
    /\ (endKey <> EmptyString -> string_lt k endKey).
Proof.
  case_bool_decide as Hend.
  - intros (k & -> & Hk)%in_range_open_ended. by exists k.
  - intros (k & -> & Hlo & Hhi)%in_range_closed. by exists k.
Qed.

(** X11: on a lawful store, for a namespace free of the separator byte,
    no call of [Next] on the iterator of a successful range scan panics:
    the i-th call returns the i-th result, which is a stored key of the
    namespace within the bounds of the scan, under the namespace of the
    scan, with the value the store holds for it and the placeholder
    version (1,1). *)
Theorem GetStateRangeScanIterator_Next (ns startKey endKey : string) (db : DB)
    (sc : kvScanner.t) (i : nat) (q : couchdb.QueryResult) :
  ~ hasSep ns ->
  couchdb.result (couchdb.exec (GetStateRangeScanIterator ns startKey endKey) db)
  = (Some sc, None) ->
  (1 <= i)%nat -> (Z.of_nat i <= maxInt + 1)%Z ->
  kvScanner.results sc !! (i - 1)%nat = Some q ->
  exists key,
    couchdb.ID q = string_of_list_byte (constructCompositeKey ns key)
    /\ string_le startKey key
    /\ (endKey <> EmptyString -> string_lt key endKey)
    /\ store.docs_of db !! couchdb.ID q ≫= store.doc_value = couchdb.Value q
    /\ (kvScanner_Next (kvScanner_after (i - 1) sc)).1
       = Returned (Some (kv_record ns key q), None).
Proof.
  intros Hns Hres Hi Hmax Hq.
  rewrite exec_GetStateRangeScanIterator in Hres. cbn [couchdb.result] in Hres.
  match type of Hres with
  | context [couchdb.handle_ReadDocRange ?s ?e ?l ?k db] =>
      pose proof (store.ReadDocRange_value s e l k db) as Hv;
      destruct (couchdb.handle_ReadDocRange s e l k db) as [[qr [err|]] db']
  end; cbn [fst snd] in *; [done|].
  injection Hres as <-. cbn [kvScanner.results] in Hq.
  pose proof Hq as Hq0.
  rewrite Hv in Hq by done. unfold store.range_query in Hq.
  rewrite drop_0 in Hq.
  assert (Hin : q ∈ store.docs_in_range
                      (string_of_list_byte (constructCompositeKey ns startKey))
                      (if bool_decide (endKey = EmptyString)
                       then string_of_list_byte
                              (list_byte_of_string ns ++ [lastKeyIndicator])
                       else string_of_list_byte (constructCompositeKey ns endKey))
                      (store.docs_of db)).
  { apply lookup_take_Some in Hq as [Hq _]. by apply list_elem_of_lookup_2 in Hq. }
  apply elem_of_docs_in_range in Hin as (id & d & -> & Hd & Hr).
  apply in_range_scan in Hr as (k & -> & Hlo & Hhi).
  exists k. cbn [store.to_result couchdb.ID couchdb.Value fst snd].
  split; [done|]. split; [done|]. split; [done|]. split; [by rewrite Hd|].
  rewrite (kvScanner_Next_at ns qr i _ Hi Hmax Hq0).
  cbn [store.to_result couchdb.ID fst].
  by rewrite list_byte_of_string_of_list_byte, splitCompositeKey_encoded.
Qed.
End Iterating.

Section Querying.
Context {DB : Type} `{!couchdb.CouchDatabase DB}.

(** X12: a query passes its expression to the store as it is, with limit
    1000 and skip 0, in one call; a store error comes back as it is, with
    no iterator.  Otherwise the i-th call of [Next] on the iterator
    returns the i-th result of the store with the namespace and key
    decoded from its identifier, and panics when the identifier holds no
    separator byte. *)
Theorem ExecuteQuery_Next (query : string) (db : DB) :
  let res := (couchdb.handle_QueryDocuments query 1000 0 db).1 in
  let r := couchdb.exec (ExecuteQuery query) db in
  couchdb.calls r = [couchdb.EvQueryDocuments query 1000 0 res]
  /\ (forall err, res.2 = Some err -> couchdb.result r = (None, Some err))
  /\ (res.2 = None ->
      exists sc,
        couchdb.result r = (Some sc, None)
        /\ forall (i : nat) q,
             (1 <= i)%nat -> (Z.of_nat i <= maxInt + 1)%Z ->
             res.1 !! (i - 1)%nat = Some q ->
             (queryScanner_Next (queryScanner_after (i - 1) sc)).1
             = match splitCompositeKey (list_byte_of_string (couchdb.ID q)) with
               | Returned (namespace, key) =>
                   Returned (Some (query_record namespace key q), None)
               | Panicked msg => Panicked msg
               end).
Proof.
  intros res r. subst res r. unfold ExecuteQuery.
  rewrite exec_bind.
  assert (E : couchdb.exec (couchdb.QueryDocuments query 1000 0) db =
    {| couchdb.result := (couchdb.handle_QueryDocuments query 1000 0 db).1;
       couchdb.final := (couchdb.handle_QueryDocuments query 1000 0 db).2;
       couchdb.calls :=
         [couchdb.EvQueryDocuments query 1000 0
            (couchdb.handle_QueryDocuments query 1000 0 db).1] |}).
  { unfold couchdb.QueryDocuments. cbn [couchdb.exec].
    by destruct (couchdb.handle_QueryDocuments query 1000 0 db). }
  rewrite E. cbn [couchdb.result couchdb.final couchdb.calls].
  destruct (couchdb.handle_QueryDocuments query 1000 0 db) as [[qr [err|]] db'];
    cbn [fst snd]; cbn [couchdb.exec couchdb.result couchdb.calls app].
  - split; [done|]. split; [by intros ? [= <-]|done].
  - split; [done|]. split; [done|]. intros _.
    exists (newQueryScanner qr). split; [done|].
    intros i q Hi Hmax Hq. by apply queryScanner_Next_at.
Qed.
End Querying.

(** ** Errors inside the savepoint protocol *)

Section SavepointErrors.
Context `{!Externals} {DB : Type} `{!couchdb.CouchDatabase DB}.

End SavepointErrors.

(** ** The provider of database handles *)

Section ProviderFacts.
Context {S I H : Type} `{!ProviderExternals S I H}.
Import VersionedDBProvider.

(** X14: once a handle has been obtained for a name, every later request
    for a name with the same lower-case form returns that same handle
    from the registry: the registry is not changed and the server is not
    called. *)
Theorem GetDBHandle_cached (name name' : string) (provider provider' : t I H)
    (s s1 s2 : S) (vdb : VersionedDB H) :
  GetDBHandle name provider s = ((Some vdb, None), provider', s1) ->
  strings_ToLower name' = strings_ToLower name ->
  GetDBHandle name' provider' s2 = ((Some vdb, None), provider', s2).
Proof.
  intros Hget Hlow. unfold GetDBHandle in *. rewrite Hlow.
  destruct (databases provider !! strings_ToLower name) as [v|] eqn:Ev.
  - injection Hget as -> -> ->. by rewrite Ev.
  - unfold newVersionedDB in Hget.
    destruct (CreateCouchDatabase _ _ s) as [[h [e|]] s'];
      [done|].
    injection Hget as <- <- <-. cbn [databases].
    by rewrite lookup_insert_eq.
Qed.

(** X15: a request for a handle never drops or replaces a handle of the
    registry and keeps every handle under its own name.  When it fails,
    with the error of the server returned as it is, the registry is
    unchanged, so nothing is cached for the name.  When it succeeds, the
    handle is named by the lower-case form of the name asked for and is
    in the registry under that name. *)
Theorem GetDBHandle_registry (name : string) (provider : t I H) (s : S) :
  let '(res, provider', s') := GetDBHandle name provider s in
  databases provider ⊆ databases provider'
  /\ couchInstance provider' = couchInstance provider
  /\ (keyed_by_name provider -> keyed_by_name provider')
  /\ match res with
     | (Some vdb, None) =>
         databases provider' !! strings_ToLower name = Some vdb
         /\ (keyed_by_name provider -> dbName vdb = strings_ToLower name)
     | (_, Some e) =>
         provider' = provider
         /\ databases provider !! strings_ToLower name = None
         /\ (CreateCouchDatabase (couchInstance provider)
               (strings_ToLower name) s).1.2 = Some e
     | (None, None) => False
     end.
Proof.
  unfold GetDBHandle.
  destruct (databases provider !! strings_ToLower name) as [v|] eqn:Ev.
  - split; [done|]. split; [done|]. split; [done|]. split; [done|].
    intros Hk. by apply Hk.
  - unfold newVersionedDB.
    destruct (CreateCouchDatabase _ _ s) as [[h [e|]] s']; cbn [fst snd].
    + by repeat split.
    + cbn [databases couchInstance]. split; [by apply insert_subseteq|].
      split; [done|]. split.
      * intros Hk n v Hv. cbn [databases] in Hv.
        apply lookup_insert_Some in Hv as [[<- <-]|[_ Hv]];
          [done|by apply Hk].
      * by rewrite lookup_insert_eq.
Qed.
End ProviderFacts.

(** ** Ledger management *)

Section LedgerFacts.
Context {W L : Type} `{!LedgerExternals W L}.
Import ledgermgmt.

Lemma closeWithoutLock_keyed (l : ClosableLedger L) (st : t W L) :
  keyed_by_id st -> keyed_by_id (closeWithoutLock l st).
Proof.
  intros Hk m key l' Hm Hl. unfold closeWithoutLock in Hm. cbn in Hm.
  destruct (openedLedgers st) as [m0|] eqn:E; [|done].
  injection Hm as <-. apply lookup_delete_Some in Hl as [_ Hl].
  by apply (Hk m0).
Qed.

Lemma Close_range_keyed entries : forall st : t W L,
  keyed_by_id st -> keyed_by_id (Close_range entries st).
Proof.
  induction entries as [|[key l] entries IH]; intros st Hk; [done|].
  cbn [Close_range]. destruct (_ ≫= _); apply IH; [|done].
  by apply closeWithoutLock_keyed.
Qed.

Lemma insert_keyed (st : t W L) m ident l w :
  keyed_by_id st -> openedLedgers st = Some m ->
  keyed_by_id
    (set_openedLedgers (set_world st w) (Some (<[ident := wrapLedger ident l]> m))).
Proof.
  intros Hk Hm m' key l' [= <-] Hl.
  apply lookup_insert_Some in Hl as [[<- <-]|[_ Hl]]; [done|].
  by apply (Hk m).
Qed.

(** X16: every ledger of the map of opened ledgers is held under its own
    id: this holds when the program starts and every operation of the
    package keeps it, whatever the provider answers. *)
Theorem openedLedgers_keyed_by_id (st : t W L) (w : W) (ident : string)
    (l : ClosableLedger L) :
  keyed_by_id (start (L := L) w)
  /\ (keyed_by_id st ->
      keyed_by_id (Initialize st).2
      /\ keyed_by_id (CreateLedger ident st).2
      /\ keyed_by_id (OpenLedger ident st).2
      /\ keyed_by_id (GetLedgerIDs st).2
      /\ keyed_by_id (ClosableLedger_Close l st)
      /\ keyed_by_id (Close st).2).
Proof.
  split; [done|]. intros Hk. repeat split.
  - unfold Initialize. destruct (once st); [done|].
    unfold initialize. cbn [world].
    destruct (kvledger_NewProvider (world st)) as [[e|] w'];
      by intros m key l' [= <-] Hl.
  - unfold CreateLedger. destruct (negb (initialized st)); [done|].
    destruct (negb (ledgerProvider st)); [done|].
    destruct (provider_Create ident (world st)) as [[l0 [e|]] w']; [done|].
    cbn [set_world openedLedgers].
    destruct (openedLedgers st) as [m|] eqn:Em; [|done].
    by apply insert_keyed.
  - unfold OpenLedger. destruct (negb (initialized st)); [done|].
    destruct (_ ≫= _); [done|].
    destruct (negb (ledgerProvider st)); [done|].
    destruct (provider_Open ident (world st)) as [[l0 [e|]] w']; [done|].
    cbn [set_world openedLedgers].
    destruct (openedLedgers st) as [m|] eqn:Em; [|done].
    by apply insert_keyed.
  - unfold GetLedgerIDs. destruct (negb (initialized st)); [done|].
    destruct (negb (ledgerProvider st)); [done|].
    by destruct (provider_List (world st)).
  - by apply closeWithoutLock_keyed.
  - unfold Close. destruct (negb (initialized st)); [done|].
    pose proof (Close_range_keyed
                  (rangeLedgers (default ∅ (openedLedgers st))) st Hk) as Hc.
    destruct (negb (ledgerProvider (Close_range _ st))); [done|].
    by intros m key l' [=].
Qed.

(** X17: a ledger that has been created or opened cannot be opened again:
    the second request returns the already-opened error, changes nothing
    and does not reach the provider. *)
Theorem OpenLedger_already_opened (ident : string) (st st1 : t W L)
    (l : ClosableLedger L) :
  CreateLedger ident st = (Returned (Some l, None), st1)
  \/ OpenLedger ident st = (Returned (Some l, None), st1) ->
  OpenLedger ident st1 = (Returned (None, Some ErrLedgerAlreadyOpened), st1).
Proof.
  assert (Hgoal : initialized st1 = true ->
                  openedLedgers st1 ≫= (fun m => m !! ident) = Some l ->
    OpenLedger ident st1 = (Returned (None, Some ErrLedgerAlreadyOpened), st1)).
  { intros Hi Hl. unfold OpenLedger. by rewrite Hi, Hl. }
  intros [Hc|Ho].
  - unfold CreateLedger in Hc. destruct (initialized st) eqn:Hi; [|done].
    destruct (ledgerProvider st); [|done]. cbn [negb] in Hc.
    destruct (provider_Create ident (world st)) as [[l0 [e|]] w']; [done|].
    cbn [set_world openedLedgers] in Hc.
    destruct (openedLedgers st) as [m|]; [|done].
    injection Hc as <- <-. apply Hgoal; [done|].
    cbn. by rewrite lookup_insert_eq.
  - unfold OpenLedger in Ho. destruct (initialized st) eqn:Hi; [|done].
    cbn [negb] in Ho. destruct (openedLedgers st ≫= _); [done|].
    destruct (ledgerProvider st); [|done]. cbn [negb] in Ho.
    destruct (provider_Open ident (world st)) as [[l0 [e|]] w']; [done|].
    cbn [set_world openedLedgers] in Ho.
    destruct (openedLedgers st) as [m|]; [|done].
    injection Ho as <- <-. apply Hgoal; [done|].
    cbn. by rewrite lookup_insert_eq.
Qed.
End LedgerFacts.

Section LedgerLifecycle.
Context {W L : Type} `{!LedgerExternals W L} `{!LedgerExternalsLaws W L}.
Import ledgermgmt.

(** X18: closing the handle of a ledger that was opened closes the ledger
    and takes its id, and no other, out of the map of opened ledgers; a
    request to open the id again is then passed to the provider, whose
    answer decides it. *)
Theorem OpenLedger_after_Close (ident : string) (st st1 : t W L)
    (l : ClosableLedger L) :
  OpenLedger ident st = (Returned (Some l, None), st1) ->
  let st2 := ClosableLedger_Close l st1 in
  world st2 = PeerLedger_Close (PeerLedger l) (world st1)
  /\ opened st2 ident = None
  /\ (forall key, key <> ident -> opened st2 key = opened st1 key)
  /\ (OpenLedger ident st2).1
     = match (provider_Open ident (world st2)).1 with
       | (_, Some e) => Returned (None, Some e)
       | (l', None) => Returned (Some (wrapLedger ident l'), None)
       end.
Proof.
  intros Ho st2. subst st2.
  unfold OpenLedger in Ho. destruct (initialized st) eqn:Hi; [|done].
  cbn [negb] in Ho. destruct (openedLedgers st ≫= _); [done|].
  destruct (ledgerProvider st) eqn:Hp; [|done]. cbn [negb] in Ho.
  destruct (provider_Open ident (world st)) as [[l0 [e|]] w']; [done|].
  cbn [set_world openedLedgers] in Ho.
  destruct (openedLedgers st) as [m|]; [|done].
  injection Ho as <- <-.
  unfold ClosableLedger_Close, closeWithoutLock, opened.
  cbn [wrapLedger id PeerLedger set_world set_openedLedgers openedLedgers world
       fmap option_fmap option_map mbind option_bind].
  split; [done|]. split; [by rewrite lookup_delete_eq|].
  split; [intros key Hk; by rewrite lookup_delete_ne|].
  unfold OpenLedger.
  cbn [initialized ledgerProvider openedLedgers world mbind option_bind
       set_world set_openedLedgers wrapLedger id PeerLedger
       fmap option_fmap option_map].
  rewrite Hi, Hp, lookup_delete_eq. cbn [negb].
  by destruct (provider_Open ident _) as [[l1 [e|]] w1].
Qed.

Lemma Close_range_all entries : forall (st : t W L) m,
  openedLedgers st = Some m ->
  NoDup entries.*1 ->
  (forall key l, (key, l) ∈ entries -> m !! key = Some l /\ id l = key) ->
  Close_range entries st
  = {| openedLedgers := Some (foldl (fun m kl => delete kl.1 m) m entries);
       ledgerProvider := ledgerProvider st;
       initialized := initialized st;
       once := once st;
       world := close_each entries (world st) |}.
Proof.
  induction entries as [|[key l] entries IH]; intros st m Hm Hnd Hin.
  - cbn. rewrite <- Hm. by destruct st.
  - rewrite fmap_cons in Hnd. apply NoDup_cons in Hnd as [Hfresh Hnd].
    destruct (Hin key l) as [Hl Hid]; [left|].
    cbn [Close_range]. rewrite Hm. cbn [mbind option_bind]. rewrite Hl.
    rewrite (IH _ (delete key m)); [done| |done|].
    + unfold closeWithoutLock. cbn. by rewrite Hm, Hid.
    + intros key' l' Hin'. destruct (Hin key' l') as [Hl' Hid']; [by right|].
      split; [|done]. rewrite lookup_delete_ne; [done|].
      intros <-. apply Hfresh. apply list_elem_of_fmap. by exists (key, l').
Qed.

(** X19: closing an initialized package closes every opened ledger, each
    exactly once, in the order the map is visited, then closes the
    provider, and leaves the map of opened ledgers nil; the package stays
    marked as initialized. *)
Theorem Close_closes_all (st : t W L) :
  keyed_by_id st ->
  initialized st = true ->
  ledgerProvider st = true ->
  let entries := rangeLedgers (default ∅ (openedLedgers st)) in
  entries ≡ₚ map_to_list (default ∅ (openedLedgers st))
  /\ Close st
     = (Returned tt,
        {| openedLedgers := None;
           ledgerProvider := true;
           initialized := true;
           once := once st;
           world := provider_Close (close_each entries (world st)) |}).
Proof.
  intros Hk Hi Hp entries. split; [apply rangeLedgers_Permutation|].
  unfold Close. rewrite Hi. cbn [negb]. fold entries.
  destruct (openedLedgers st) as [m|] eqn:Em.
  - rewrite (Close_range_all entries st m Em).
    + cbn [ledgerProvider]. rewrite Hp. cbn [negb].
      unfold set_openedLedgers, set_world. cbn. by rewrite ?Hi, ?Hp.
    + unfold entries. rewrite rangeLedgers_Permutation.
      apply NoDup_fst_map_to_list.
    + intros key l Hin. unfold entries in Hin.
      rewrite rangeLedgers_Permutation in Hin.
      apply elem_of_map_to_list in Hin. split; [done|]. by apply (Hk m).
  - assert (entries = []) as ->.
    { apply Permutation_nil_r. unfold entries.
      rewrite rangeLedgers_Permutation. cbn. by rewrite map_to_list_empty. }
    cbn [Close_range]. rewrite Hp. cbn [negb].
    unfold set_openedLedgers, set_world, close_each. cbn.
    by rewrite ?Hi, ?Hp.
Qed.
End LedgerLifecycle.

Section LedgerEdges.
Context {W L : Type} `{!LedgerExternals W L}.
Import ledgermgmt.

(** X20: a package that has been closed cannot be brought back: it is
    still marked as initialized, initializing it again does nothing, and
    a request to create or to open a ledger goes to the closed provider
    and then either returns the provider's error or, when the provider
    answers with a ledger, panics on the nil map. *)
Theorem after_Close (st : t W L) (ident : string) :
  initialized st = true ->
  ledgerProvider st = true ->
  once st = true ->
  let st' := (Close st).2 in
  (Close st).1 = Returned tt
  /\ initialized st' = true
  /\ openedLedgers st' = None
  /\ Initialize st' = (Returned tt, st')
  /\ (CreateLedger ident st').1
     = match (provider_Create ident (world st')).1 with
       | (_, Some e) => Returned (None, Some e)
       | (_, None) => Panicked "assignment to entry in nil map"
       end
  /\ (OpenLedger ident st').1
     = match (provider_Open ident (world st')).1 with
       | (_, Some e) => Returned (None, Some e)
       | (_, None) => Panicked "assignment to entry in nil map"
       end.
Proof.
  intros Hi Hp Ho st'. subst st'. unfold Close. rewrite Hi. cbn [negb].
  set (entries := rangeLedgers _).
  assert (Hsame : forall es (s : t W L),
    initialized (Close_range es s) = initialized s
    /\ ledgerProvider (Close_range es s) = ledgerProvider s
    /\ once (Close_range es s) = once s).
  { induction es as [|[key l] es IH]; intros s; [done|].
    cbn [Close_range]. destruct (_ ≫= _); [|apply IH].
    destruct (IH (closeWithoutLock l s)) as (-> & -> & ->). done. }
  destruct (Hsame entries st) as (Hi' & Hp' & Ho').
  rewrite Hp', Hp. cbn [negb fst snd].
  unfold Initialize, CreateLedger, OpenLedger.
  cbn [set_openedLedgers set_world initialized ledgerProvider once
       openedLedgers world mbind option_bind].
  rewrite Hi', Hp', Ho', Hi, Hp, Ho. cbn [negb].
  split; [done|]. split; [done|]. split; [done|]. split; [done|]. split.
  - by destruct (provider_Create ident _) as [[l [e|]] w'].
  - by destruct (provider_Open ident _) as [[l [e|]] w'].
Qed.

(** X21: when the provider cannot be set up, initializing panics with the
    error wrapped in its message, and leaves the package marked as
    initialized with no provider.  Initializing again does nothing, and
    every later operation panics on the nil provider; none returns the
    not-initialized error. *)
Theorem Initialize_failure (st : t W L) (e : error) (w' : W) (ident : string) :
  once st = false ->
  ledgerProvider st = false ->
  kvledger_NewProvider (world st) = (Some e, w') ->
  let st' := (Initialize st).2 in
  let nil_provider := "invalid memory address or nil pointer dereference"%string in
  (Initialize st).1
  = Panicked (String.append "Error in instantiating ledger provider: " e)
  /\ initialized st' = true
  /\ Initialize st' = (Returned tt, st')
  /\ (CreateLedger ident st').1 = Panicked nil_provider
  /\ (OpenLedger ident st').1 = Panicked nil_provider
  /\ (GetLedgerIDs st').1 = Panicked nil_provider
  /\ (Close st').1 = Panicked nil_provider.
Proof.
  intros Ho Hp Hnew st' nil_provider. subst st' nil_provider.
  assert (E : Initialize st
              = (Panicked (String.append "Error in instantiating ledger provider: " e),
                 {| openedLedgers := Some ∅; ledgerProvider := false;
                    initialized := true; once := true; world := w' |})).
  { unfold Initialize. rewrite Ho. unfold initialize. cbn [world].
    rewrite Hnew. cbn. by rewrite Hp. }
  rewrite E. cbn [fst snd initialized].
  split; [done|]. split; [done|]. split; [done|].
  unfold CreateLedger, OpenLedger, GetLedgerIDs, Close.
  cbn [initialized ledgerProvider once openedLedgers world negb
       mbind option_bind default].
  rewrite lookup_empty. repeat (split; [done|]).
  assert (Hsame : forall es (s : t W L),
    ledgerProvider (Close_range es s) = ledgerProvider s).
  { induction es as [|[key l] es IH]; intros s; [done|].
    cbn [Close_range]. destruct (_ ≫= _); [|apply IH]. by rewrite IH. }
  by rewrite Hsame.
Qed.

(** X22: creating, opening or closing one ledger leaves the entry of
    every other id in the map of opened ledgers as it was, and a request
    to create or open that does not return a ledger changes no entry at
    all. *)
Theorem other_ledgers_untouched (st : t W L) (ident key : string)
    (l : ClosableLedger L) :
  (key <> ident ->
   opened (CreateLedger ident st).2 key = opened st key
   /\ opened (OpenLedger ident st).2 key = opened st key)
  /\ (key <> id l -> opened (ClosableLedger_Close l st) key = opened st key)
  /\ ((forall l', (CreateLedger ident st).1 <> Returned (Some l', None)) ->
      openedLedgers (CreateLedger ident st).2 = openedLedgers st)
  /\ ((forall l', (OpenLedger ident st).1 <> Returned (Some l', None)) ->
      openedLedgers (OpenLedger ident st).2 = openedLedgers st).
Proof.
  unfold opened. split; [|split; [|split]].
  - intros Hne. unfold CreateLedger, OpenLedger.
    destruct (negb (initialized st)); [done|]. split.
    + destruct (negb (ledgerProvider st)); [done|].
      destruct (provider_Create ident (world st)) as [[l0 [e|]] w]; [done|].
      cbn [set_world openedLedgers].
      destruct (openedLedgers st) as [m|] eqn:Em; cbn; rewrite ?Em; [|done].
      cbn. by rewrite lookup_insert_ne.
    + destruct (openedLedgers st ≫= _) eqn:El; [done|].
      destruct (negb (ledgerProvider st)); [done|].
      destruct (provider_Open ident (world st)) as [[l0 [e|]] w]; [done|].
      cbn [set_world openedLedgers].
      destruct (openedLedgers st) as [m|] eqn:Em; cbn; rewrite ?Em; [|done].
      cbn. by rewrite lookup_insert_ne.
  - intros Hne. unfold ClosableLedger_Close, closeWithoutLock. cbn.
    destruct (openedLedgers st) as [m|]; [|done].
    cbn. by rewrite lookup_delete_ne.
  - unfold CreateLedger. destruct (negb (initialized st)); [done|].
    destruct (negb (ledgerProvider st)); [done|].
    destruct (provider_Create ident (world st)) as [[l0 [e|]] w]; [done|].
    cbn [set_world openedLedgers].
    destruct (openedLedgers st) as [m|] eqn:Em; [|done].
    intros Hno. by destruct (Hno (wrapLedger ident l0)).
  - unfold OpenLedger. destruct (negb (initialized st)); [done|].
    destruct (openedLedgers st ≫= _) eqn:El; [done|].
    destruct (negb (ledgerProvider st)); [done|].
    destruct (provider_Open ident (world st)) as [[l0 [e|]] w]; [done|].
    cbn [set_world openedLedgers].
    destruct (openedLedgers st) as [m|] eqn:Em; [|done].
    intros Hno. by destruct (Hno (wrapLedger ident l0)).
Qed.
End LedgerEdges.

(** ** The further properties on concrete inputs *)

Lemma ApplyUpdates_write_failure_witness :
  let r := couchdb.exec (ApplyUpdates example.batch example.height) tt in
  let ev := couchdb.EvSaveDoc
              (string_of_list_byte (constructCompositeKey "chaincode1" "alice"))
              EmptyString (Some (list_byte_of_string "{}")) []
              (EmptyString, Some downdb.refused) in
  (0 < length (rangeKVs (statedb.KVs example.batch)))%nat
  /\ couchdb.calls r !! 0%nat = Some ev
  /\ event_error ev = Some downdb.refused
  /\ (couchdb.result r = Some downdb.refused
      /\ length (couchdb.calls r) = 1%nat
      /\ commits_of (couchdb.calls r) = []).
Proof.
  intros r ev.
  assert (H1 : (0 < length (rangeKVs (statedb.KVs example.batch)))%nat)
    by (vm_compute; lia).
  assert (H2 : couchdb.calls r !! 0%nat = Some ev) by (vm_compute; reflexivity).
  assert (H3 : event_error ev = Some downdb.refused) by reflexivity.
  split; [exact H1|]. split; [exact H2|]. split; [exact H3|].
  exact (@ApplyUpdates_write_failure sample.externals unit downdb.couch
           example.batch example.height tt 0%nat ev downdb.refused H1 H2 H3).
Defined.

Lemma ApplyUpdates_frame_witness :
  let id := string_of_list_byte (constructCompositeKey "chaincode1" "alice") in
  id <> savepointDocID
  /\ (forall ck vv,
        statedb.KVs example.batch2 !! ck = Some vv ->
        id <> string_of_list_byte
                (constructCompositeKey (statedb.Namespace ck) (statedb.Key ck)))
  /\ store.docs_of
       (couchdb.final
          (couchdb.exec (ApplyUpdates example.batch2 example.height2)
             example.applied)) !! id
     = store.docs_of example.applied !! id.
Proof.
  intros id.
  assert (H1 : id <> savepointDocID) by (vm_compute; discriminate).
  assert (H2 : forall ck vv,
    statedb.KVs example.batch2 !! ck = Some vv ->
    id <> string_of_list_byte
            (constructCompositeKey (statedb.Namespace ck) (statedb.Key ck))).
  { intros ck vv Hin. unfold example.batch2 in Hin. cbn [statedb.KVs] in Hin.
    apply lookup_singleton_Some in Hin as [<- _]. vm_compute. discriminate. }
  split; [exact H1|]. split; [exact H2|].
  exact (@ApplyUpdates_frame sample.externals sample_facts.laws memdb.t
           memdb.couch memdb.lawful example.batch2 example.height2
           example.applied id H1 H2).
Defined.

Lemma example_batch_namespaces_ok : batch_namespaces_ok example.batch.
Proof.
  intros ck vv Hin. unfold example.batch in Hin. cbn [statedb.KVs] in Hin.
  apply lookup_insert_Some in Hin as [[<- _]|[_ Hin]];
    [by apply (bool_decide_unpack _)|].
  apply lookup_insert_Some in Hin as [[<- _]|[_ Hin]];
    [by apply (bool_decide_unpack _)|].
  by rewrite lookup_empty in Hin.
Defined.

Lemma GetState_after_ApplyUpdates_witness :
  let r := couchdb.exec (ApplyUpdates example.batch example.height) memdb.empty in
  let ck := example.key "chaincode1" "bob" in
  let vv := example.value [xde; xad; xbe; xef] in
  batch_namespaces_ok example.batch
  /\ couchdb.result r = None
  /\ statedb.KVs example.batch !! ck = Some vv
  /\ (couchdb.handle_ReadDoc
        (string_of_list_byte
           (constructCompositeKey (statedb.Namespace ck) (statedb.Key ck)))
        (couchdb.final r)).1.2 = None
  /\ couchdb.result
       (couchdb.exec (GetState (statedb.Namespace ck) (statedb.Key ck))
          (couchdb.final r))
     = (read_back (statedb.Value vv), None).
Proof.
  intros r ck vv.
  assert (H2 : couchdb.result r = None) by (vm_compute; reflexivity).
  assert (H3 : statedb.KVs example.batch !! ck = Some vv)
    by (vm_compute; reflexivity).
  assert (H4 : (couchdb.handle_ReadDoc
                  (string_of_list_byte
                     (constructCompositeKey (statedb.Namespace ck) (statedb.Key ck)))
                  (couchdb.final r)).1.2 = None) by reflexivity.
  split; [exact example_batch_namespaces_ok|]. split; [exact H2|].
  split; [exact H3|]. split; [exact H4|].
  exact (@GetState_after_ApplyUpdates sample.externals sample_facts.laws memdb.t
           memdb.couch memdb.lawful example.batch example.height memdb.empty
           ck vv example_batch_namespaces_ok H2 H3 H4).
Defined.

Lemma ApplyUpdates_twice_witness :
  let r1 := couchdb.exec (ApplyUpdates example.batch example.height) memdb.empty in
  let r2 := couchdb.exec (ApplyUpdates example.batch example.height2)
              (couchdb.final r1) in
  let id := string_of_list_byte (constructCompositeKey "chaincode1" "bob") in
  batch_namespaces_ok example.batch
  /\ couchdb.result r1 = None
  /\ couchdb.result r2 = None
  /\ id <> savepointDocID
  /\ store.docs_of (couchdb.final r2) !! id = store.docs_of (couchdb.final r1) !! id.
Proof.
  intros r1 r2 id.
  assert (H1 : couchdb.result r1 = None) by (vm_compute; reflexivity).
  assert (H2 : couchdb.result r2 = None) by (vm_compute; reflexivity).
  assert (H3 : id <> savepointDocID) by (vm_compute; discriminate).
  split; [exact example_batch_namespaces_ok|]. split; [exact H1|].
  split; [exact H2|]. split; [exact H3|].
  exact (@ApplyUpdates_twice sample.externals sample_facts.laws memdb.t
           memdb.couch memdb.lawful example.batch example.height example.height2
           memdb.empty id example_batch_namespaces_ok H1 H2 H3).
Defined.

Lemma GetStateRangeScanIterator_bounded_witness :
  let s := string_of_list_byte (constructCompositeKey "chaincode1" "a") in
  let e := string_of_list_byte (constructCompositeKey "chaincode1" "b") in
  "b"%string <> EmptyString
  /\ savepointDocID
       ∉ couchdb.ID <$> store.docs_in_range s e (store.docs_of example.applied).
Proof.
  intros s e.
  assert (H1 : "b"%string <> EmptyString) by discriminate.
  split; [exact H1|].
  pose proof (@GetStateRangeScanIterator_bounded memdb.t memdb.couch
                memdb.lawful "chaincode1" "a" "b" example.applied H1) as Hb.
  cbv zeta in Hb. exact (proj2 (proj2 Hb)).
Defined.

Lemma Next_on_undecodable_result_witness :
  let q := {| couchdb.ID := savepointDocID; couchdb.Value := None |} in
  (1 <= 1)%nat /\ (Z.of_nat 1 <= maxInt + 1)%Z
  /\ example.with_savepoint !! (1 - 1)%nat = Some q
  /\ ~ hasSep (couchdb.ID q)
  /\ (queryScanner_Next
        (queryScanner_after (1 - 1) (newQueryScanner example.with_savepoint))).1
     = Panicked "index out of range".
Proof.
  intros q.
  assert (H2 : (Z.of_nat 1 <= maxInt + 1)%Z) by (unfold maxInt, intSize; lia).
  assert (H3 : example.with_savepoint !! (1 - 1)%nat = Some q) by reflexivity.
  assert (H4 : ~ hasSep (couchdb.ID q)) by (by apply (bool_decide_unpack _)).
  split; [exact (le_n 1)|]. split; [exact H2|]. split; [exact H3|].
  split; [exact H4|].
  pose proof (Next_on_undecodable_result "ns" example.with_savepoint 1 q
                (le_n 1) H2 H3 H4) as Hn.
  cbv zeta in Hn. exact (proj1 (proj2 Hn)).
Defined.

Lemma GetStateRangeScanIterator_Next_witness :
  let sc := newKVScanner "chaincode1"
              (store.range_query
                 (string_of_list_byte (constructCompositeKey "chaincode1" "b"))
                 (string_of_list_byte
                    (list_byte_of_string "chaincode1" ++ [lastKeyIndicator]))
                 1000 0 (store.docs_of example.applied)) in
  let q := {| couchdb.ID :=
                string_of_list_byte (constructCompositeKey "chaincode1" "bob");
              couchdb.Value := Some [xde; xad; xbe; xef] |} in
  ~ hasSep "chaincode1"
  /\ couchdb.result
       (couchdb.exec (GetStateRangeScanIterator "chaincode1" "b" EmptyString)
          example.applied)
     = (Some sc, None)
  /\ (1 <= 1)%nat /\ (Z.of_nat 1 <= maxInt + 1)%Z
  /\ kvScanner.results sc !! (1 - 1)%nat = Some q
  /\ exists key,
       couchdb.ID q = string_of_list_byte (constructCompositeKey "chaincode1" key)
       /\ string_le "b" key
       /\ (EmptyString <> EmptyString -> string_lt key EmptyString)
       /\ store.docs_of example.applied !! couchdb.ID q ≫= store.doc_value
          = couchdb.Value q
       /\ (kvScanner_Next (kvScanner_after (1 - 1) sc)).1
          = Returned (Some (kv_record "chaincode1" key q), None).
Proof.
  intros sc q.
  assert (H1 : ~ hasSep "chaincode1") by (by apply (bool_decide_unpack _)).
  assert (H2 : couchdb.result
                 (couchdb.exec
                    (GetStateRangeScanIterator "chaincode1" "b" EmptyString)
                    example.applied) = (Some sc, None)) by reflexivity.
  assert (H4 : (Z.of_nat 1 <= maxInt + 1)%Z) by (unfold maxInt, intSize; lia).
  assert (H5 : kvScanner.results sc !! (1 - 1)%nat = Some q)
    by (vm_compute; reflexivity).
  split; [exact H1|]. split; [exact H2|]. split; [exact (le_n 1)|].
  split; [exact H4|]. split; [exact H5|].
  exact (@GetStateRangeScanIterator_Next memdb.t memdb.couch memdb.lawful
           "chaincode1" "b" EmptyString example.applied sc 1 q
           H1 H2 (le_n 1) H4 H5).
Defined.

Lemma GetDBHandle_cached_witness :
  let vdb := {| VersionedDBProvider.db := "mychannel"%string;
                VersionedDBProvider.dbName := "mychannel"%string |} in
  let provider' :=
    {| VersionedDBProvider.couchInstance := tt;
       VersionedDBProvider.databases := {["mychannel"%string := vdb]};
       VersionedDBProvider.openCounts := 0 |} in
  VersionedDBProvider.GetDBHandle "MyChannel" sample_server.fresh []
  = ((Some vdb, None), provider', ["mychannel"%string])
  /\ strings_ToLower "MYCHANNEL" = strings_ToLower "MyChannel"
  /\ VersionedDBProvider.GetDBHandle "MYCHANNEL" provider' ["mychannel"%string]
     = ((Some vdb, None), provider', ["mychannel"%string]).
Proof.
  intros vdb provider'.
  assert (H1 : VersionedDBProvider.GetDBHandle "MyChannel" sample_server.fresh []
               = ((Some vdb, None), provider', ["mychannel"%string]))
    by reflexivity.
  assert (H2 : strings_ToLower "MYCHANNEL" = strings_ToLower "MyChannel")
    by reflexivity.
  split; [exact H1|]. split; [exact H2|].
  exact (@GetDBHandle_cached (list string) unit string sample_server.externals
           "MyChannel" "MYCHANNEL" sample_server.fresh provider'
           [] ["mychannel"%string] ["mychannel"%string] vdb H1 H2).
Defined.

Lemma sample_ledgers_laws :
  @LedgerExternalsLaws sample_ledgers.storage string sample_ledgers.externals.
Proof. by split. Qed.

Lemma OpenLedger_already_opened_witness :
  let st1 := (ledgermgmt.OpenLedger "a" sample_ledgers.ready).2 in
  ledgermgmt.OpenLedger "a" sample_ledgers.ready
  = (Returned (Some (ledgermgmt.wrapLedger "a" "a"%string), None), st1)
  /\ ledgermgmt.OpenLedger "a" st1
     = (Returned (None, Some ledgermgmt.ErrLedgerAlreadyOpened), st1).
Proof.
  intros st1.
  assert (H1 : ledgermgmt.OpenLedger "a" sample_ledgers.ready
               = (Returned (Some (ledgermgmt.wrapLedger "a" "a"%string), None), st1))
    by reflexivity.
  split; [exact H1|].
  exact (@OpenLedger_already_opened sample_ledgers.storage string
           sample_ledgers.externals "a" sample_ledgers.ready st1
           (ledgermgmt.wrapLedger "a" "a"%string) (or_intror H1)).
Defined.

Lemma OpenLedger_after_Close_witness :
  let l := ledgermgmt.wrapLedger "a" "a"%string in
  let st1 := (ledgermgmt.OpenLedger "a" sample_ledgers.ready).2 in
  let st2 := ledgermgmt.ClosableLedger_Close l st1 in
  ledgermgmt.OpenLedger "a" sample_ledgers.ready = (Returned (Some l, None), st1)
  /\ opened st2 "a" = None
  /\ (ledgermgmt.OpenLedger "a" st2).1 = Returned (Some l, None).
Proof.
  intros l st1 st2.
  assert (H1 : ledgermgmt.OpenLedger "a" sample_ledgers.ready
               = (Returned (Some l, None), st1)) by reflexivity.
  split; [exact H1|].
  pose proof (@OpenLedger_after_Close sample_ledgers.storage string
                sample_ledgers.externals "a" sample_ledgers.ready st1 l H1) as Hc.
  cbv zeta in Hc. destruct Hc as (_ & Hgone & _ & Hopen).
  split; [exact Hgone|]. subst st2. rewrite Hopen. reflexivity.
Defined.

Lemma two_opened_keyed_by_id : ledgermgmt.keyed_by_id sample_ledgers.two_opened.
Proof.
  intros m key l [= <-] Hl.
  apply lookup_insert_Some in Hl as [[<- <-]|[_ Hl]]; [done|].
  by apply lookup_singleton_Some in Hl as [<- <-].
Defined.

Lemma Close_closes_all_witness :
  ledgermgmt.keyed_by_id sample_ledgers.two_opened
  /\ ledgermgmt.initialized sample_ledgers.two_opened = true
  /\ ledgermgmt.ledgerProvider sample_ledgers.two_opened = true
  /\ ledgermgmt.Close sample_ledgers.two_opened
     = (Returned tt,
        {| ledgermgmt.openedLedgers := None;
           ledgermgmt.ledgerProvider := true;
           ledgermgmt.initialized := true;
           ledgermgmt.once := ledgermgmt.once sample_ledgers.two_opened;
           ledgermgmt.world :=
             provider_Close
               (close_each
                  (rangeLedgers
                     (default ∅ (ledgermgmt.openedLedgers sample_ledgers.two_opened)))
                  (ledgermgmt.world sample_ledgers.two_opened)) |}).
Proof.
  split; [exact two_opened_keyed_by_id|]. split; [reflexivity|].
  split; [reflexivity|].
  exact (proj2 (@Close_closes_all sample_ledgers.storage string
                  sample_ledgers.externals sample_ledgers_laws
                  sample_ledgers.two_opened two_opened_keyed_by_id
                  eq_refl eq_refl)).
Defined.

Lemma after_Close_witness :
  let st' := (ledgermgmt.Close sample_ledgers.two_opened).2 in
  ledgermgmt.initialized sample_ledgers.two_opened = true
  /\ ledgermgmt.ledgerProvider sample_ledgers.two_opened = true
  /\ ledgermgmt.once sample_ledgers.two_opened = true
  /\ ledgermgmt.Initialize st' = (Returned tt, st')
  /\ (ledgermgmt.OpenLedger "a" st').1 = Panicked "assignment to entry in nil map".
Proof.
  intros st'. split; [reflexivity|]. split; [reflexivity|]. split; [reflexivity|].
  pose proof (@after_Close sample_ledgers.storage string sample_ledgers.externals
                sample_ledgers.two_opened "a" eq_refl eq_refl eq_refl) as Ha.
  cbv zeta in Ha. destruct Ha as (_ & _ & _ & Hinit & _ & Hopen).
  split; [exact Hinit|]. subst st'. rewrite Hopen. reflexivity.
Defined.

Lemma Initialize_failure_witness :
  let st := ledgermgmt.start (L := string) sample_ledgers.unusable in
  let st' := (ledgermgmt.Initialize st).2 in
  ledgermgmt.once st = false
  /\ ledgermgmt.ledgerProvider st = false
  /\ kvledger_NewProvider (ledgermgmt.world st)
     = (Some (errors_New "storage is broken"), sample_ledgers.unusable)
  /\ ledgermgmt.initialized st' = true
  /\ (ledgermgmt.CreateLedger "a" st').1
     = Panicked "invalid memory address or nil pointer dereference".
Proof.
  intros st st'. split; [reflexivity|]. split; [reflexivity|].
  split; [reflexivity|].
  pose proof (@Initialize_failure sample_ledgers.storage string
                sample_ledgers.externals st (errors_New "storage is broken")
                sample_ledgers.unusable "a" eq_refl eq_refl eq_refl) as Hf.
  cbv zeta in Hf. destruct Hf as (_ & Hi & _ & Hc & _).
  split; [exact Hi|exact Hc].
Defined.
